(** * Vision keyboard / virtual piano: blob-to-key pipeline

    Shallow embedding of the two MicroPython scripts [key.py] and [piano.py]
    and the properties of their per-frame loop body: blob selection, zone
    lookup, the press/release state machine with its debounce check, the
    commands written to the UART and the periodic coordinate report. *)

From Stdlib Require Import ZArith List String Ascii Bool Lia.
Import ListNotations.
Local Open Scope Z_scope.

(** ** Data shared by both scripts *)

Definition coords : Type := Z * Z.

(** One entry of a key map: [{'center': .., 'rect': (x, y, w, h), 'key': ..}]. *)
Record key_info : Type := KeyInfo
  { center : coords; rect : Z * Z * Z * Z; key : string }.

(** What the loop body reads from a blob returned by [img.find_blobs]. *)
Record blob : Type := Blob { cx : Z; cy : Z; pixels : Z }.

(** The inputs of one loop iteration: the detector's list and the value that
    [time.ticks_ms()] returns in that iteration. *)
Record frame : Type := Frame { blobs : list blob; ticks_ms : Z }.

(** The board as far as the loop body depends on it: [time.ticks_diff] and
    whether [uart_to_mcu.write] accepts a command or raises. *)
Record platform : Type := Platform
  { ticks_diff : Z -> Z -> Z; uart_accepts : string -> bool }.

(** Console lines, kept as data instead of rendered text. *)
Inductive log_line : Type :=
| LogRelease (k : string)
| LogPress (k : string)
| LogCenter (c : option coords)
| LogTimerCenter (c : coords)
| LogTimerNone
| LogNoteReleased (k : string)
| LogNotePressed (k : string).

(** Effects of the loop body that leave the board. *)
Inductive event : Type :=
| Uart (cmd : string)
| Led (on : bool)
| Console (l : log_line).

Definition LF : string := String (ascii_of_nat 10) EmptyString.

Definition release_cmd (k : string) : string := ("U_" ++ k ++ LF)%string.
Definition press_cmd (k : string) : string := ("D_" ++ k ++ LF)%string.

(** Python truth value of a key variable: [None] and the empty string are
    false. *)
Definition truthy (k : option string) : bool :=
  match k with
  | Some s => negb (s =? EmptyString)%string
  | None => false
  end.

(** [a != b] on key variables. *)
Definition key_neq (a b : option string) : bool :=
  match a, b with
  | Some x, Some y => negb (x =? y)%string
  | None, None => false
  | _, _ => true
  end.

(** [max(blobs, key=lambda b: b.pixels())]: the first blob of maximal pixel
    count. *)
Fixpoint max_from (best : blob) (rest : list blob) : blob :=
  match rest with
  | [] => best
  | b :: bs => if pixels b >? pixels best then max_from b bs else max_from best bs
  end.

Definition main_blob (bs : list blob) : option blob :=
  match bs with
  | [] => None
  | b :: rest => Some (max_from b rest)
  end.

(** The containment test of both scripts:
    [cx > rect[0] and cx < rect[0] + rect[2] and cy > rect[1] and cy < rect[1] + rect[3]]. *)
Definition inside (r : Z * Z * Z * Z) (px py : Z) : bool :=
  let '(x, y, w, h) := r in
  (px >? x) && (px <? x + w) && (py >? y) && (py <? y + h).

(** The [for key_info in ...: if <inside>: ...; break] loop: the entry at which
    the loop breaks, if any. *)
Fixpoint first_hit (table : list key_info) (px py : Z) : option key_info :=
  match table with
  | [] => None
  | ki :: rest => if inside (rect ki) px py then Some ki else first_hit rest px py
  end.

(** ** A small monad: global variables, emitted events, and the exception a
    UART write may raise *)

Inductive outcome (A : Type) : Type :=
| Normal (a : A)
| Raised (cmd : string).
Arguments Normal {A} a.
Arguments Raised {A} cmd.

Definition M (G A : Type) : Type := G -> outcome A * G * list event.

Definition ret {G A} (a : A) : M G A := fun g => (Normal a, g, []).

Definition bind {G A B} (m : M G A) (f : A -> M G B) : M G B :=
  fun g =>
    match m g with
    | (Normal a, g1, w1) =>
        let '(r, g2, w2) := f a g1 in (r, g2, w1 ++ w2)
    | (Raised c, g1, w1) => (Raised c, g1, w1)
    end.

Definition get {G} : M G G := fun g => (Normal g, g, []).
Definition modify {G} (f : G -> G) : M G unit := fun g => (Normal tt, f g, []).
Definition emit {G} (e : event) : M G unit := fun g => (Normal tt, g, [e]).
Definition when {G} (b : bool) (m : M G unit) : M G unit := if b then m else ret tt.

(** [uart_to_mcu.write(cmd)]: the command reaches the link, or the call raises
    and nothing after it in the iteration runs. *)
Definition uart_write {G} (P : platform) (cmd : string) : M G unit :=
  fun g => if uart_accepts P cmd then (Normal tt, g, [Uart cmd]) else (Raised cmd, g, []).

Notation "x <- m ;; k" := (bind m (fun x => k))
  (at level 61, m at next level, right associativity).
Notation "m ;; k" := (bind m (fun _ => k))
  (at level 61, right associativity).

(** Successive loop iterations; an exception ends the [while True] loop. *)
Fixpoint iterate {G} (body : frame -> M G unit) (fs : list frame) : M G unit :=
  match fs with
  | [] => ret tt
  | f :: rest => body f ;; iterate body rest
  end.

Definition vars_of {G A} (r : outcome A * G * list event) : G := snd (fst r).
Definition events_of {G A} (r : outcome A * G * list event) : list event := snd r.
Definition completed {G A} (r : outcome A * G * list event) : bool :=
  match fst (fst r) with Normal _ => true | Raised _ => false end.

(** The commands that reached the serial link, in order. *)
Fixpoint uart_of (w : list event) : list string :=
  match w with
  | [] => []
  | Uart c :: rest => c :: uart_of rest
  | _ :: rest => uart_of rest
  end.

Definition is_press (c : string) : bool := String.prefix "D_" c.
Definition is_release (c : string) : bool := String.prefix "U_" c.

(** ** key.py *)

Module Key.

Definition keymap_data : list key_info :=
  [ KeyInfo (179, 161) (174, 152, 30, 30) "J";
    KeyInfo (143, 150) (138, 141, 30, 30) "H";
    KeyInfo (227, 149) (222, 140, 30, 30) "L";
    KeyInfo (62, 120) (57, 111, 30, 30) "R";
    KeyInfo (120, 150) (115, 141, 30, 30) "G";
    KeyInfo (5, 185) (0, 176, 30, 30) "Z";
    KeyInfo (50, 151) (45, 146, 30, 30) "D";
    KeyInfo (160, 191) (110, 206, 100, 30) "SPACE";
    KeyInfo (62, 113) (57, 104, 30, 30) "-";
    KeyInfo (222, 99) (217, 90, 10, 17) "BACK" ].

Definition DEBOUNCE_TIME : Z := 200.
Definition COORD_PRINT_INTERVAL : Z := 2000.

(** The data the loop body is configured by. *)
Record config : Type := Config
  { zones : list key_info; debounce_time : Z; print_interval : Z }.

Definition source_config : config :=
  Config keymap_data DEBOUNCE_TIME COORD_PRINT_INTERVAL.

(** The script's state variables. *)
Record globals : Type := Globals
  { last_pressed_key : option string;
    last_key_time : Z;
    last_center_coords : option coords;
    last_print_time : Z }.

Definition initial : globals := Globals None 0 None 0.

Definition set_last_pressed_key (v : option string) (g : globals) : globals :=
  Globals v (last_key_time g) (last_center_coords g) (last_print_time g).
Definition set_last_key_time (v : Z) (g : globals) : globals :=
  Globals (last_pressed_key g) v (last_center_coords g) (last_print_time g).
Definition set_last_center_coords (v : option coords) (g : globals) : globals :=
  Globals (last_pressed_key g) (last_key_time g) v (last_print_time g).
Definition set_last_print_time (v : Z) (g : globals) : globals :=
  Globals (last_pressed_key g) (last_key_time g) (last_center_coords g) v.

(** Lines 72-99: [current_key_found] and [current_center_coords] after the
    [if blobs:] block. *)
Definition detect (table : list key_info) (bs : list blob)
  : option string * option coords :=
  match main_blob bs with
  | None => (None, None)
  | Some b =>
      match first_hit table (cx b) (cy b) with
      | Some ki =>
          if negb (key ki =? "NULL")%string
          then (Some (key ki), Some (center ki))
          else (None, None)
      | None => (None, None)
      end
  end.

Definition nonempty (bs : list blob) : bool :=
  match bs with [] => false | _ :: _ => true end.

(** A coordinate pair is a non-empty tuple: true whenever it is not [None]. *)
Definition coords_truthy (c : option coords) : bool :=
  match c with Some _ => true | None => false end.

(** Lines 101-105. *)
Definition update_center (bs : list blob) (current_center_coords : option coords)
  : M globals unit :=
  if nonempty bs && coords_truthy current_center_coords
  then modify (set_last_center_coords current_center_coords)
  else if negb (nonempty bs)
       then modify (set_last_center_coords None)
       else ret tt.

(** The debounce check of lines 110-112 applied to the candidate. *)
Definition debounced (P : platform) (C : config) (g : globals)
    (current_time : Z) (current_key_found : option string) : option string :=
  if truthy current_key_found
     && (ticks_diff P current_time (last_key_time g) <? debounce_time C)
  then None else current_key_found.

(** Lines 107-135. *)
Definition state_machine (P : platform) (C : config) (current_time : Z)
    (current_key_found : option string) (current_center_coords : option coords)
  : M globals unit :=
  g <- get ;;
  when (key_neq current_key_found (last_pressed_key g)
        || (truthy current_key_found && truthy (last_pressed_key g)))
    (let current_key_found := debounced P C g current_time current_key_found in
     when (key_neq current_key_found (last_pressed_key g))
       (emit (Led (truthy current_key_found)) ;;
        match last_pressed_key g with
        | Some k =>
            when (truthy (Some k))
              (uart_write P (release_cmd k) ;; emit (Console (LogRelease k)))
        | None => ret tt
        end ;;
        match current_key_found with
        | Some k =>
            when (truthy (Some k))
              (uart_write P (press_cmd k) ;;
               emit (Console (LogPress k)) ;;
               emit (Console (LogCenter current_center_coords)))
        | None => ret tt
        end ;;
        modify (set_last_pressed_key current_key_found) ;;
        modify (set_last_key_time current_time))).

(** Lines 137-143. *)
Definition periodic_report (P : platform) (C : config) (current_time : Z)
  : M globals unit :=
  g <- get ;;
  when (ticks_diff P current_time (last_print_time g) >=? print_interval C)
    (match last_center_coords g with
     | Some c => emit (Console (LogTimerCenter c))
     | None => emit (Console LogTimerNone)
     end ;;
     modify (set_last_print_time current_time)).

(** One iteration of [while True:]. Drawing on the frame image is left out:
    the image does not outlive the iteration. *)
Definition loop_body (P : platform) (C : config) (f : frame) : M globals unit :=
  let '(current_key_found, current_center_coords) := detect (zones C) (blobs f) in
  update_center (blobs f) current_center_coords ;;
  let current_time := ticks_ms f in
  state_machine P C current_time current_key_found current_center_coords ;;
  periodic_report P C current_time.

Definition run (P : platform) (C : config) (fs : list frame) : M globals unit :=
  iterate (loop_body P C) fs.

End Key.

(** ** piano.py *)

Module Piano.

Definition white_keys : list key_info :=
  [ KeyInfo (50, 190) (40, 150, 20, 80) "C4";
    KeyInfo (70, 190) (60, 150, 20, 80) "D4";
    KeyInfo (90, 190) (80, 150, 20, 80) "E4";
    KeyInfo (110, 190) (100, 150, 20, 80) "F4";
    KeyInfo (130, 190) (120, 150, 20, 80) "G4";
    KeyInfo (150, 190) (140, 150, 20, 80) "A4";
    KeyInfo (170, 190) (160, 150, 20, 80) "B4";
    KeyInfo (190, 190) (180, 150, 20, 80) "C5";
    KeyInfo (210, 190) (200, 150, 20, 80) "D5";
    KeyInfo (230, 190) (220, 150, 20, 80) "E5" ].

Definition black_keys : list key_info :=
  [ KeyInfo (40, 125) (33, 100, 14, 50) "CS4";
    KeyInfo (60, 125) (53, 100, 14, 50) "DS4";
    KeyInfo (100, 125) (93, 100, 14, 50) "FS4";
    KeyInfo (120, 125) (113, 100, 14, 50) "GS4";
    KeyInfo (140, 125) (133, 100, 14, 50) "AS4";
    KeyInfo (180, 125) (173, 100, 14, 50) "CS5";
    KeyInfo (200, 125) (193, 100, 14, 50) "DS5" ].

Definition pianokey_map_data : list key_info := black_keys ++ white_keys.

(** The script's only state variable. *)
Record globals : Type := Globals { last_pressed_key : option string }.

Definition initial : globals := Globals None.

Definition set_last_pressed_key (v : option string) (g : globals) : globals :=
  Globals v.

(** Lines 95-116: [current_key_found] after the [if blobs:] block. *)
Definition detect (table : list key_info) (bs : list blob) : option string :=
  match main_blob bs with
  | None => None
  | Some b =>
      match first_hit table (cx b) (cy b) with
      | Some ki => Some (key ki)
      | None => None
      end
  end.

(** Lines 118-134. *)
Definition state_machine (P : platform) (current_key_found : option string)
  : M globals unit :=
  g <- get ;;
  when (key_neq current_key_found (last_pressed_key g))
    (emit (Led (truthy current_key_found)) ;;
     match last_pressed_key g with
     | Some k =>
         when (truthy (Some k))
           (uart_write P (release_cmd k) ;; emit (Console (LogNoteReleased k)))
     | None => ret tt
     end ;;
     match current_key_found with
     | Some k =>
         when (truthy (Some k))
           (uart_write P (press_cmd k) ;; emit (Console (LogNotePressed k)))
     | None => ret tt
     end ;;
     modify (set_last_pressed_key current_key_found)).

(** One iteration of [while True:]; the script never reads the clock. *)
Definition loop_body (P : platform) (table : list key_info) (f : frame)
  : M globals unit :=
  state_machine P (detect table (blobs f)).

Definition run (P : platform) (table : list key_info) (fs : list frame)
  : M globals unit :=
  iterate (loop_body P table) fs.

End Piano.

(** ** Boards used in examples *)

(** Tick counts that do not wrap during the run, and a link that takes every
    command. *)
Definition ideal_board : platform := Platform Z.sub (fun _ => true).

(** The same clock with a link on which every write raises. *)
Definition dead_link : platform := Platform Z.sub (fun _ => false).

Definition one_blob (x y : Z) (t : Z) : frame := Frame [Blob x y 100] t.
Definition no_blob (t : Z) : frame := Frame [] t.

(** The closed rectangle minus the open one. *)
Definition on_boundary (r : Z * Z * Z * Z) (px py : Z) : Prop :=
  let '(x, y, w, h) := r in
  (x <= px <= x + w /\ y <= py <= y + h) /\
  (px = x \/ px = x + w \/ py = y \/ py = y + h).

Definition strictly_inside (r : Z * Z * Z * Z) (px py : Z) : Prop :=
  let '(x, y, w, h) := r in
  x < px < x + w /\ y < py < y + h.

Definition misses (px py : Z) (ki : key_info) : Prop :=
  inside (rect ki) px py = false.

(** Number of commands of one kind in what a frame sent. *)
Definition count (p : string -> bool) (w : list string) : nat :=
  List.length (filter p w).

(** The key a variable designates as pressed: none when the variable is false
    in Python. *)
Definition held (k : option string) : option string :=
  if truthy k then k else None.

(** A command stream in which presses and releases alternate and every
    release names the key pressed just before it, read from a link on which
    [h] is down: at no point are two keys down. *)
Fixpoint one_key_at_a_time (h : option string) (cmds : list string) : Prop :=
  match cmds with
  | [] => True
  | c :: rest =>
      match h with
      | None => exists k, c = press_cmd k /\ one_key_at_a_time (Some k) rest
      | Some k => c = release_cmd k /\ one_key_at_a_time None rest
      end
  end.

(** The debounce check of key.py turns the candidate of frame [f] into
    [None]. *)
Definition gate_fires (P : platform) (C : Key.config) (g : Key.globals) (f : frame) : bool :=
  truthy (fst (Key.detect (Key.zones C) (blobs f)))
  && (ticks_diff P (ticks_ms f) (Key.last_key_time g) <? Key.debounce_time C).

(** Along the run of key.py from [g] over [fs] the debounce check never
    fires. *)
Fixpoint gate_never_fires (P : platform) (C : Key.config) (g : Key.globals)
    (fs : list frame) : Prop :=
  match fs with
  | [] => True
  | f :: rest =>
      gate_fires P C g f = false /\
      gate_never_fires P C (vars_of (Key.loop_body P C f g)) rest
  end.

Definition no_null_entry (table : list key_info) : Prop :=
  Forall (fun ki => key ki <> "NULL"%string) table.

(** Frame times that never go back, starting at or after [t0]. *)
Fixpoint nondecreasing_from (t0 : Z) (fs : list frame) : Prop :=
  match fs with
  | [] => True
  | f :: rest => t0 <= ticks_ms f /\ nondecreasing_from (ticks_ms f) rest
  end.

(** Summary of the release/press block of either script when the key
    variable goes from [old] to [new]: whether the block ran to its end, and
    the commands that reached the link. *)
Definition transmit (P : platform) (old new : option string) : bool * list string :=
  if key_neq new old then
    match held old, held new with
    | Some k, Some k' =>
        if uart_accepts P (release_cmd k)
        then if uart_accepts P (press_cmd k')
             then (true, [release_cmd k; press_cmd k'])
             else (false, [release_cmd k])
        else (false, [])
    | Some k, None =>
        if uart_accepts P (release_cmd k) then (true, [release_cmd k]) else (false, [])
    | None, Some k' =>
        if uart_accepts P (press_cmd k') then (true, [press_cmd k']) else (false, [])
    | None, None => (true, [])
    end
  else (true, []).

(** What a frame may put on the link: at most one press, at most one release,
    and when both, the release first. *)
Definition release_then_press (w : list string) : Prop :=
  (count is_press w <= 1)%nat /\
  (count is_release w <= 1)%nat /\
  (count is_press w = 1%nat -> count is_release w = 1%nat ->
   exists k k', w = [release_cmd k; press_cmd k']).

Definition no_empty_key (table : list key_info) : Prop :=
  Forall (fun ki => key ki <> EmptyString) table.

(** The key variable designates no key or a key that is true in Python. *)
Definition proper_key (k : option string) : Prop :=
  held k = k.

(** The states the blue LED is switched to, in order. *)
Fixpoint led_of (w : list event) : list bool :=
  match w with
  | [] => []
  | Led b :: rest => b :: led_of rest
  | _ :: rest => led_of rest
  end.

(** The LED after the events [w], when it was [init] before. *)
Definition led_after (init : bool) (w : list event) : bool :=
  fold_left (fun _ b => b) (led_of w) init.

(** What the two-second timer of key.py printed, in order: a center, or
    [None] for the line that says no key region is known. *)
Fixpoint reports_of (w : list event) : list (option coords) :=
  match w with
  | [] => []
  | Console (LogTimerCenter c) :: rest => Some c :: reports_of rest
  | Console LogTimerNone :: rest => None :: reports_of rest
  | _ :: rest => reports_of rest
  end.

(** The frame times at which a run of key.py wrote a press. *)
Fixpoint press_times (P : platform) (C : Key.config) (fs : list frame)
    (g : Key.globals) : list Z :=
  match fs with
  | [] => []
  | f :: rest =>
      let r := Key.loop_body P C f g in
      (if existsb is_press (uart_of (events_of r)) then [ticks_ms f] else []) ++
      (if completed r then press_times P C rest (vars_of r) else [])
  end.

(** The frame times at which the timer of key.py printed. *)
Fixpoint report_times (P : platform) (C : Key.config) (fs : list frame)
    (g : Key.globals) : list Z :=
  match fs with
  | [] => []
  | f :: rest =>
      let r := Key.loop_body P C f g in
      (match reports_of (events_of r) with [] => [] | _ :: _ => [ticks_ms f] end) ++
      (if completed r then report_times P C rest (vars_of r) else [])
  end.

(** Times that start at least [d] after [lo] and are at least [d] apart. *)
Fixpoint spaced (d lo : Z) (ts : list Z) : Prop :=
  match ts with
  | [] => True
  | t :: rest => lo + d <= t /\ spaced d t rest
  end.

(** The command stream [cmds], read from a link on which [h] is down, leaves
    [h'] down, and never has two keys down on the way. *)
Fixpoint leaves_down (h : option string) (cmds : list string) (h' : option string)
  : Prop :=
  match cmds with
  | [] => h = h'
  | c :: rest =>
      match h with
      | None => exists k, c = press_cmd k /\ leaves_down (Some k) rest h'
      | Some k => c = release_cmd k /\ leaves_down None rest h'
      end
  end.

(** The bytes on the wire: the commands one after the other. *)
Definition wire (cmds : list string) : string :=
  fold_right String.append EmptyString cmds.

(** A key without a line feed in it. *)
Fixpoint no_lf (k : string) : bool :=
  match k with
  | EmptyString => true
  | String a rest => negb (Ascii.eqb a (ascii_of_nat 10)) && no_lf rest
  end.

(** A press or release line for a key without line feed. *)
Definition framed_cmd (c : string) : Prop :=
  exists k, no_lf k = true /\ (c = press_cmd k \/ c = release_cmd k).

(** A command that names a key of the table. *)
Definition names_table_key (table : list key_info) (c : string) : Prop :=
  exists ki, In ki table /\ (c = press_cmd (key ki) \/ c = release_cmd (key ki)).

(** * Properties *)

(** ** Zone lookup *)

Section Lookup.

Variables px py : Z.

Lemma inside_iff (r : Z * Z * Z * Z) :
  inside r px py = true <-> strictly_inside r px py.
Proof.
  destruct r as [[[x y] w] h]. unfold inside, strictly_inside.
  rewrite !andb_true_iff, !Z.gtb_lt, !Z.ltb_lt. lia.
Qed.

Lemma boundary_not_inside (r : Z * Z * Z * Z) :
  on_boundary r px py -> inside r px py = false.
Proof.
  intros Hb. destruct (inside r px py) eqn:E; [|reflexivity].
  apply inside_iff in E. destruct r as [[[x y] w] h].
  unfold on_boundary in Hb. unfold strictly_inside in E. lia.
Qed.

Lemma first_hit_inside (table : list key_info) (ki : key_info) :
  first_hit table px py = Some ki -> inside (rect ki) px py = true.
Proof.
  induction table as [|e rest IH]; simpl; [discriminate|].
  destruct (inside (rect e) px py) eqn:E; [|exact IH].
  intros H. injection H as <-. exact E.
Qed.

Lemma first_hit_skip (l1 l2 : list key_info) :
  Forall (misses px py) l1 ->
  first_hit (l1 ++ l2) px py = first_hit l2 px py.
Proof.
  induction 1 as [|e l1 He _ IH]; simpl; [reflexivity|].
  unfold misses in He. rewrite He. exact IH.
Qed.

Lemma first_hit_here (l1 l2 : list key_info) (ki : key_info) :
  Forall (misses px py) l1 -> inside (rect ki) px py = true ->
  first_hit (l1 ++ ki :: l2) px py = Some ki.
Proof.
  intros Hl Hk. rewrite first_hit_skip by exact Hl. simpl. now rewrite Hk.
Qed.

Lemma first_hit_split (table : list key_info) (ki : key_info) :
  first_hit table px py = Some ki ->
  exists l1 l2, table = l1 ++ ki :: l2 /\ Forall (misses px py) l1.
Proof.
  induction table as [|e rest IH]; simpl; [discriminate|].
  destruct (inside (rect e) px py) eqn:E.
  - intros H. injection H as <-. exists [], rest. split; [reflexivity|constructor].
  - intros H. destruct (IH H) as (l1 & l2 & -> & Hl).
    exists (e :: l1), l2. split; [reflexivity|]. constructor; assumption.
Qed.

Lemma first_hit_none (table : list key_info) :
  first_hit table px py = None <-> Forall (misses px py) table.
Proof.
  induction table as [|e rest IH]; simpl.
  - split; [constructor|reflexivity].
  - destruct (inside (rect e) px py) eqn:E.
    + split; [discriminate|]. intros H. inversion H; subst.
      unfold misses in *. congruence.
    + rewrite IH. split; [now constructor|]. intros H. now inversion H.
Qed.

Lemma first_hit_extend (table more : list key_info) (ki : key_info) :
  first_hit table px py = Some ki ->
  first_hit (table ++ more) px py = Some ki.
Proof.
  intros H. destruct (first_hit_split _ _ H) as (l1 & l2 & -> & Hl).
  rewrite <- app_assoc. simpl. apply first_hit_here; [exact Hl|].
  eapply first_hit_inside; exact H.
Qed.

End Lookup.

Lemma main_blob_single (b : blob) : main_blob [b] = Some b.
Proof. reflexivity. Qed.

Lemma key_detect_hit (table : list key_info) (bs : list blob) (b : blob) (ki : key_info) :
  main_blob bs = Some b -> first_hit table (cx b) (cy b) = Some ki ->
  Key.detect table bs =
    if (key ki =? "NULL")%string then (None, None)
    else (Some (key ki), Some (center ki)).
Proof.
  intros Hb Hh. unfold Key.detect. rewrite Hb, Hh.
  now destruct (key ki =? "NULL")%string.
Qed.

Lemma key_detect_miss (table : list key_info) (bs : list blob) (b : blob) :
  main_blob bs = Some b -> first_hit table (cx b) (cy b) = None ->
  Key.detect table bs = (None, None).
Proof. intros Hb Hh. unfold Key.detect. now rewrite Hb, Hh. Qed.

Lemma piano_detect_hit (table : list key_info) (bs : list blob) (b : blob) (ki : key_info) :
  main_blob bs = Some b -> first_hit table (cx b) (cy b) = Some ki ->
  Piano.detect table bs = Some (key ki).
Proof. intros Hb Hh. unfold Piano.detect. now rewrite Hb, Hh. Qed.

(** C5, as stated, fails on key.py's own table: the point (60, 120) lies
    strictly inside the rectangle of the zone "-" and resolves to "R", which
    is listed earlier and contains the point too. *)
Lemma inner_point_of_later_zone_resolves_elsewhere :
  let minus := KeyInfo (62, 113) (57, 104, 30, 30) "-" in
  In minus Key.keymap_data /\
  strictly_inside (rect minus) 60 120 /\
  fst (Key.detect Key.keymap_data [Blob 60 120 100]) = Some "R"%string /\
  Piano.detect Key.keymap_data [Blob 60 120 100] = Some "R"%string /\
  fst (Key.detect Key.keymap_data [Blob 60 120 100]) <> Some (key minus).
Proof.
  cbv zeta. repeat split; try reflexivity; try lia.
  - simpl. tauto.
  - discriminate.
Qed.

(** C5 (amended): a point passes a zone's test exactly when it is strictly
    inside the rectangle; a point on the rectangle's boundary never resolves to
    that zone, whatever the table; a point strictly inside resolves to the
    zone's key when no zone listed earlier contains it too (and, in key.py,
    when the key is not the "NULL" placeholder). *)
Theorem strict_containment_law (ki : key_info) (px py : Z) :
  (inside (rect ki) px py = true <-> strictly_inside (rect ki) px py) /\
  (on_boundary (rect ki) px py ->
   forall table, first_hit table px py <> Some ki) /\
  (strictly_inside (rect ki) px py ->
   forall l1 l2 bs b,
     Forall (misses px py) l1 ->
     main_blob bs = Some b -> cx b = px -> cy b = py ->
     first_hit (l1 ++ ki :: l2) px py = Some ki /\
     Piano.detect (l1 ++ ki :: l2) bs = Some (key ki) /\
     (key ki <> "NULL"%string ->
      Key.detect (l1 ++ ki :: l2) bs = (Some (key ki), Some (center ki)))).
Proof.
  split; [apply inside_iff|]. split.
  - intros Hb table Hh. apply first_hit_inside in Hh.
    rewrite (boundary_not_inside _ _ _ Hb) in Hh. discriminate.
  - intros Hin l1 l2 bs b Hl Hb <- <-.
    apply inside_iff in Hin.
    pose proof (first_hit_here _ _ l1 l2 ki Hl Hin) as Hh.
    split; [exact Hh|]. split.
    + eapply piano_detect_hit; eassumption.
    + intros Hk. rewrite (key_detect_hit _ _ _ _ Hb Hh).
      apply String.eqb_neq in Hk. now rewrite Hk.
Qed.

Lemma strict_containment_law_witness :
  first_hit Key.keymap_data 174 160 <> Some (KeyInfo (179, 161) (174, 152, 30, 30) "J") /\
  Key.detect Key.keymap_data [Blob 180 160 100] = (Some "J"%string, Some (179, 161)).
Proof.
  pose (J := KeyInfo (179, 161) (174, 152, 30, 30) "J").
  split.
  - destruct (strict_containment_law J 174 160) as (_ & Hb & _).
    apply Hb. simpl. lia.
  - destruct (strict_containment_law J 180 160) as (_ & _ & Hi).
    apply (Hi ltac:(simpl; lia) [] (tl Key.keymap_data) [Blob 180 160 100] (Blob 180 160 100));
      try reflexivity; [constructor | discriminate].
Defined.

Lemma first_hit_least (px py : Z) (table : list key_info) :
  forall i a,
    nth_error table i = Some a -> inside (rect a) px py = true ->
    exists n z,
      (n <= i)%nat /\ nth_error table n = Some z /\
      inside (rect z) px py = true /\
      (forall m e, (m < n)%nat -> nth_error table m = Some e -> misses px py e) /\
      first_hit table px py = Some z.
Proof.
  induction table as [|e rest IH]; intros i a Hi Ha.
  - destruct i; discriminate Hi.
  - cbn [first_hit]. destruct (inside (rect e) px py) eqn:He.
    + exists 0%nat, e. repeat split; try lia; auto.
    + destruct i as [|i]; [cbn in Hi; congruence|].
      destruct (IH i a Hi Ha) as (n & z & Hn & Hz & Hin & Hbefore & Hh).
      exists (S n), z. repeat split; try lia; auto.
      intros m e' Hm He'. destruct m as [|m]; [cbn in He'; congruence|].
      apply (Hbefore m); [lia|exact He'].
Qed.

(** C6: when two or more zones contain the point, the zone selected is the
    first one listed that contains it, so never the later of the two, whatever
    the sizes of the rectangles; entries appended to the table never change
    the selection; the key found is that zone's key; and in the piano table
    [black_keys ++ white_keys] a point inside a black key resolves to a black
    key. *)
Theorem overlap_priority (table : list key_info) (px py : Z) (i j : nat)
    (zi zj : key_info) :
  (i < j)%nat ->
  nth_error table i = Some zi -> nth_error table j = Some zj ->
  inside (rect zi) px py = true ->
  inside (rect zj) px py = true ->
  (exists n z,
     (n <= i)%nat /\ nth_error table n = Some z /\
     inside (rect z) px py = true /\
     (forall m e, (m < n)%nat -> nth_error table m = Some e -> misses px py e) /\
     ((forall m e, (m < i)%nat -> nth_error table m = Some e -> misses px py e) ->
      n = i /\ z = zi) /\
     first_hit table px py = Some z /\
     (forall more, first_hit (table ++ more) px py = Some z) /\
     (forall bs b, main_blob bs = Some b -> cx b = px -> cy b = py ->
        Piano.detect table bs = Some (key z) /\
        Key.detect table bs =
          if (key z =? "NULL")%string then (None, None)
          else (Some (key z), Some (center z)))) /\
  (forall bk n, first_hit Piano.black_keys px py = Some bk ->
     Piano.detect Piano.pianokey_map_data [Blob px py n] = Some (key bk)).
Proof.
  intros Hij Hi Hj Hzi Hzj. split.
  - destruct (first_hit_least px py table i zi Hi Hzi)
      as (n & z & Hn & Hz & Hin & Hbefore & Hh).
    exists n, z.
    split; [exact Hn|]. split; [exact Hz|]. split; [exact Hin|].
    split; [exact Hbefore|]. split; [|split; [exact Hh|split]].
    + intros Hfirst.
      assert (n = i) as ->.
      { destruct (Nat.eq_dec n i) as [E|E]; [exact E|].
        specialize (Hfirst n z ltac:(lia) Hz). unfold misses in Hfirst. congruence. }
      split; [reflexivity|congruence].
    + intros more. apply first_hit_extend. exact Hh.
    + intros bs b Hb <- <-. split.
      * eapply piano_detect_hit; eassumption.
      * eapply key_detect_hit; eassumption.
  - intros bk n Hbk. unfold Piano.pianokey_map_data.
    apply (piano_detect_hit _ _ (Blob px py n)); [reflexivity|].
    apply first_hit_extend. exact Hbk.
Qed.

Lemma overlap_priority_witness :
  first_hit Key.keymap_data 60 120 = Some (KeyInfo (62, 120) (57, 111, 30, 30) "R").
Proof.
  pose (R := KeyInfo (62, 120) (57, 111, 30, 30) "R").
  pose (minus := KeyInfo (62, 113) (57, 104, 30, 30) "-").
  destruct (overlap_priority Key.keymap_data 60 120 3 8 R minus
              ltac:(lia) eq_refl eq_refl eq_refl eq_refl)
    as [(n & z & _ & _ & _ & _ & Hfirst & Hh & _) _].
  destruct Hfirst as [_ Hz].
  - intros m e Hm He.
    destruct m as [|[|[|m]]]; [| | |lia]; cbn in He; injection He as <-; reflexivity.
  - rewrite Hh, Hz. reflexivity.
Defined.

(** C7: when the loop breaks at an entry whose key is "NULL", the lookup gives
    what it gives for a point that no zone contains: no key and no center. The
    whole iteration then runs as it does with an empty table, and nothing is
    raised by the lookup. *)
Theorem null_sentinel_is_no_match (table : list key_info) (bs : list blob)
    (b : blob) (ki : key_info) :
  main_blob bs = Some b ->
  first_hit table (cx b) (cy b) = Some ki ->
  key ki = "NULL"%string ->
  Key.detect table bs = (None, None) /\
  (forall table' bs' b',
     main_blob bs' = Some b' -> first_hit table' (cx b') (cy b') = None ->
     Key.detect table bs = Key.detect table' bs') /\
  (forall P d r t g,
     Key.loop_body P (Key.Config table d r) (Frame bs t) g =
     Key.loop_body P (Key.Config [] d r) (Frame bs t) g).
Proof.
  intros Hb Hh Hk.
  assert (Hd : Key.detect table bs = (None, None)).
  { rewrite (key_detect_hit _ _ _ _ Hb Hh), Hk. reflexivity. }
  split; [exact Hd|]. split.
  - intros table' bs' b' Hb' Hm. rewrite Hd. symmetry.
    eapply key_detect_miss; eassumption.
  - intros P d r t g. unfold Key.loop_body. simpl.
    rewrite Hd. rewrite (key_detect_miss [] bs b Hb eq_refl). reflexivity.
Qed.

Lemma null_sentinel_is_no_match_witness :
  Key.detect [KeyInfo (5, 5) (0, 0, 10, 10) "NULL"; KeyInfo (6, 6) (1, 1, 10, 10) "A"]
             [Blob 4 4 100] = (None, None).
Proof.
  refine (proj1 (null_sentinel_is_no_match _ [Blob 4 4 100] (Blob 4 4 100)
                   (KeyInfo (5, 5) (0, 0, 10, 10) "NULL") _ _ _)); reflexivity.
Defined.

(** ** The state machine *)

Arguments Key.debounced : simpl never.
Arguments release_cmd : simpl never.
Arguments press_cmd : simpl never.

Lemma uart_of_app (w1 w2 : list event) :
  uart_of (w1 ++ w2) = uart_of w1 ++ uart_of w2.
Proof.
  induction w1 as [|e w1 IH]; simpl; [reflexivity|].
  destruct e; simpl; now rewrite IH.
Qed.

Lemma key_neq_refl (a : option string) : key_neq a a = false.
Proof.
  destruct a as [x|]; unfold key_neq; [|reflexivity].
  now rewrite String.eqb_refl.
Qed.

Lemma key_neq_false (a b : option string) : key_neq a b = false -> a = b.
Proof.
  destruct a as [x|], b as [y|]; unfold key_neq; try discriminate; [|reflexivity].
  intros H. apply negb_false_iff, String.eqb_eq in H. now subst.
Qed.

Lemma truthy_some (k : string) : truthy (Some k) = true <-> k <> EmptyString.
Proof.
  unfold truthy. rewrite negb_true_iff. apply String.eqb_neq.
Qed.

Lemma is_press_press (k : string) : is_press (press_cmd k) = true.
Proof. unfold is_press, is_release, press_cmd, release_cmd. simpl. now destruct k. Qed.

Lemma is_press_release (k : string) : is_press (release_cmd k) = false.
Proof. reflexivity. Qed.

Lemma is_release_release (k : string) : is_release (release_cmd k) = true.
Proof. unfold is_press, is_release, press_cmd, release_cmd. simpl. now destruct k. Qed.

Lemma is_release_press (k : string) : is_release (press_cmd k) = false.
Proof. reflexivity. Qed.

(** Case analysis on the conditions of a loop body, innermost first. *)
Ltac atom b :=
  lazymatch b with
  | context [if _ then _ else _] => fail
  | context [match _ with _ => _ end] => fail
  | _ => idtac
  end.

Ltac split_one :=
  match goal with
  | |- context [if ?b then _ else _] => atom b; destruct b eqn:?
  | |- context [match ?x with _ => _ end] => atom x; destruct x eqn:?
  end.

Ltac run_monad :=
  unfold bind, when, get, modify, emit, ret, uart_write; cbv zeta; cbn beta iota.

Ltac all_cases := simpl; repeat (split_one; simpl).

(** Turns boolean facts about keys into equations and closes contradictory
    cases. *)
Ltac key_facts :=
  rewrite ?andb_true_r, ?andb_false_r, ?orb_false_r in *;
  repeat match goal with
  | H : _ || _ = false |- _ => apply orb_false_iff in H; destruct H
  | H : _ && _ = true |- _ => apply andb_true_iff in H; destruct H
  | H : negb _ = true |- _ => apply negb_true_iff in H
  | H : negb _ = false |- _ => apply negb_false_iff in H
  | H : (?a =? ?b)%string = true |- _ => apply String.eqb_eq in H; subst
  | H : true = false |- _ => discriminate H
  | H : false = true |- _ => discriminate H
  end;
  rewrite ?String.eqb_refl in *;
  try congruence.

(** *** key.py, phase by phase *)

Lemma update_center_run (bs : list blob) (c : option coords) (g : Key.globals) :
  Key.update_center bs c g =
    (Normal tt,
     Key.set_last_center_coords
       (if Key.nonempty bs
        then match c with Some v => Some v | None => Key.last_center_coords g end
        else None) g,
     []).
Proof.
  unfold Key.update_center, modify, ret.
  destruct (Key.nonempty bs), c as [v|], g; reflexivity.
Qed.

Lemma key_state_machine_run (P : platform) (C : Key.config) (t : Z)
    (k : option string) (c : option coords) (g : Key.globals) :
  let old := Key.last_pressed_key g in
  let new := Key.debounced P C g t k in
  let r := Key.state_machine P C t k c g in
  completed r = fst (transmit P old new) /\
  uart_of (events_of r) = snd (transmit P old new) /\
  vars_of r =
    (if completed r && key_neq new old
     then Key.set_last_key_time t (Key.set_last_pressed_key new g)
     else g).
Proof.
  cbv zeta.
  unfold Key.state_machine, Key.debounced, transmit, held, completed, events_of, vars_of.
  run_monad.
  destruct (Key.last_pressed_key g) as [o|], k as [k|].
  all: all_cases.
  all: try (repeat split; (reflexivity || discriminate)).
  all: key_facts.
Qed.

Lemma periodic_report_run (P : platform) (C : Key.config) (t : Z) (g : Key.globals) :
  let r := Key.periodic_report P C t g in
  completed r = true /\
  uart_of (events_of r) = [] /\
  vars_of r =
    (if ticks_diff P t (Key.last_print_time g) >=? Key.print_interval C
     then Key.set_last_print_time t g else g).
Proof.
  cbv zeta. unfold Key.periodic_report, completed, events_of, vars_of. run_monad.
  all_cases; repeat split; reflexivity.
Qed.

(** The shape of a sequence of two unit computations. *)
Lemma seq_run {G} (m k : M G unit) (g : G) :
  (m ;; k) g =
    if completed (m g)
    then (fst (fst (k (vars_of (m g)))), vars_of (k (vars_of (m g))),
          events_of (m g) ++ events_of (k (vars_of (m g))))
    else m g.
Proof.
  unfold bind, completed, vars_of, events_of.
  destruct (m g) as [[[a|c] g1] w1]; simpl; [|reflexivity].
  destruct (k g1) as [[o g2] w2]. reflexivity.
Qed.

Lemma seq_completed {G} (m k : M G unit) (g : G) :
  completed ((m ;; k) g) = completed (m g) && completed (k (vars_of (m g))).
Proof.
  rewrite seq_run. destruct (completed (m g)) eqn:E; [reflexivity|exact E].
Qed.

Lemma seq_vars {G} (m k : M G unit) (g : G) :
  vars_of ((m ;; k) g) =
    if completed (m g) then vars_of (k (vars_of (m g))) else vars_of (m g).
Proof. rewrite seq_run. now destruct (completed (m g)). Qed.

Lemma seq_uart {G} (m k : M G unit) (g : G) :
  uart_of (events_of ((m ;; k) g)) =
    uart_of (events_of (m g)) ++
    (if completed (m g) then uart_of (events_of (k (vars_of (m g)))) else []).
Proof.
  rewrite seq_run. destruct (completed (m g)).
  - unfold events_of at 1. simpl. apply uart_of_app.
  - now rewrite app_nil_r.
Qed.

Section KeyFrame.

Variables (P : platform) (C : Key.config) (f : frame) (g : Key.globals).

(** One iteration of key.py against its summary. *)
Lemma key_frame_summary :
  let r := Key.loop_body P C f g in
  let cand := fst (Key.detect (Key.zones C) (blobs f)) in
  let cc := snd (Key.detect (Key.zones C) (blobs f)) in
  let old := Key.last_pressed_key g in
  let new := Key.debounced P C g (ticks_ms f) cand in
  completed r = fst (transmit P old new) /\
  uart_of (events_of r) = snd (transmit P old new) /\
  Key.last_pressed_key (vars_of r) = (if completed r then new else old) /\
  Key.last_key_time (vars_of r) =
    (if completed r && key_neq new old then ticks_ms f else Key.last_key_time g) /\
  Key.last_center_coords (vars_of r) =
    (if Key.nonempty (blobs f)
     then match cc with Some c => Some c | None => Key.last_center_coords g end
     else None).
Proof.
  cbv zeta. unfold Key.loop_body.
  destruct (Key.detect (Key.zones C) (blobs f)) as [k c].
  cbn [fst snd].
  rewrite ?seq_completed, ?seq_uart, ?seq_vars.
  rewrite update_center_run.
  change (completed (Normal tt, ?x, ?w)) with true.
  change (vars_of (Normal tt, ?x, ?w)) with x.
  change (events_of (Normal tt, ?x, ?w)) with w.
  cbn [andb uart_of app].
  set (g1 := Key.set_last_center_coords _ g).
  destruct (key_state_machine_run P C (ticks_ms f) k c g1) as (Hc & Hu & Hv).
  change (Key.last_pressed_key g1) with (Key.last_pressed_key g) in *.
  change (Key.debounced P C g1 (ticks_ms f) k)
    with (Key.debounced P C g (ticks_ms f) k) in *.
  destruct (periodic_report_run P C (ticks_ms f)
              (vars_of (Key.state_machine P C (ticks_ms f) k c g1)))
    as (Pc & Pu & Pv).
  rewrite Pc, Pu, Pv, Hu, Hv, Hc, andb_true_r.
  destruct (transmit P _ _) as [ok w]; cbn [fst snd].
  destruct (key_neq (Key.debounced P C g (ticks_ms f) k) (Key.last_pressed_key g))
    eqn:Hn; [|apply key_neq_false in Hn].
  all: destruct ok; cbn [andb];
    try match goal with
        | |- context [if ?b >=? ?d then _ else _] => destruct (b >=? d)
        end;
    subst g1; rewrite ?app_nil_r, ?Hn; repeat split; reflexivity.
Qed.

End KeyFrame.

(** *** piano.py *)

Section PianoFrame.

Variables (P : platform) (table : list key_info) (f : frame) (g : Piano.globals).

(** One iteration of piano.py against its summary. *)
Lemma piano_frame_summary :
  let r := Piano.loop_body P table f g in
  let old := Piano.last_pressed_key g in
  let new := Piano.detect table (blobs f) in
  completed r = fst (transmit P old new) /\
  uart_of (events_of r) = snd (transmit P old new) /\
  Piano.last_pressed_key (vars_of r) = (if completed r then new else old).
Proof.
  cbv zeta. unfold Piano.loop_body.
  generalize (Piano.detect table (blobs f)) as k. intros k.
  unfold Piano.state_machine, transmit, held, completed, events_of, vars_of.
  run_monad.
  destruct g as [[o|]], k as [k|].
  all: all_cases.
  all: try (repeat split; (reflexivity || discriminate)).
  all: key_facts.
  all: repeat split; reflexivity.
Qed.

End PianoFrame.

(** *** What [transmit] can send *)

Lemma transmit_shape (P : platform) (old new : option string) :
  release_then_press (snd (transmit P old new)).
Proof.
  unfold release_then_press, transmit, count.
  destruct (key_neq new old), (held old) as [k|], (held new) as [k'|];
    repeat match goal with
           | |- context [if uart_accepts P ?c then _ else _] =>
               destruct (uart_accepts P c)
           end;
    cbn [snd filter];
    rewrite ?is_press_press, ?is_press_release, ?is_release_release, ?is_release_press;
    cbn [List.length];
    repeat split; try lia; try discriminate.
  intros _ _. now exists k, k'.
Qed.

Lemma transmit_no_press (P : platform) (old new : option string) :
  held new = None -> count is_press (snd (transmit P old new)) = 0%nat.
Proof.
  intros Hn. unfold transmit, count. rewrite Hn.
  destruct (key_neq new old), (held old) as [k|];
    repeat match goal with
           | |- context [if uart_accepts P ?c then _ else _] =>
               destruct (uart_accepts P c)
           end;
    cbn [snd filter]; rewrite ?is_press_release; reflexivity.
Qed.

Lemma transmit_one_key (P : platform) (old new : option string) (rest : list string) :
  (if fst (transmit P old new)
   then one_key_at_a_time (held new) rest
   else rest = []) ->
  one_key_at_a_time (held old) (snd (transmit P old new) ++ rest).
Proof.
  unfold transmit.
  destruct (key_neq new old) eqn:Hn.
  - destruct (held old) as [k|], (held new) as [k'|];
      repeat match goal with
             | |- context [if uart_accepts P ?c then _ else _] =>
                 destruct (uart_accepts P c)
             end;
      cbn [fst snd app]; intros H; subst; cbn [one_key_at_a_time]; eauto.
  - apply key_neq_false in Hn. subst. cbn [fst snd app]. tauto.
Qed.

Lemma key_run_one_key (P : platform) (C : Key.config) (fs : list frame) :
  forall g,
    one_key_at_a_time (held (Key.last_pressed_key g))
      (uart_of (events_of (Key.run P C fs g))).
Proof.
  induction fs as [|f rest IH]; intros g; [exact I|].
  unfold Key.run in *. cbn [iterate]. rewrite seq_uart.
  destruct (key_frame_summary P C f g) as (Hc & Hu & Hk & _).
  rewrite Hu. apply transmit_one_key. rewrite <- Hc.
  destruct (completed (Key.loop_body P C f g)); [|reflexivity].
  rewrite <- Hk. apply IH.
Qed.

Lemma piano_run_one_key (P : platform) (table : list key_info) (fs : list frame) :
  forall g,
    one_key_at_a_time (held (Piano.last_pressed_key g))
      (uart_of (events_of (Piano.run P table fs g))).
Proof.
  induction fs as [|f rest IH]; intros g; [exact I|].
  unfold Piano.run in *. cbn [iterate]. rewrite seq_uart.
  destruct (piano_frame_summary P table f g) as (Hc & Hu & Hk).
  rewrite Hu. apply transmit_one_key. rewrite <- Hc.
  destruct (completed (Piano.loop_body P table f g)); [|reflexivity].
  rewrite <- Hk. apply IH.
Qed.

(** C4: in every frame of either script at most one press and at most one
    release are written to the UART, and when both are written the release
    comes first; hence along any run from the initial state the command
    stream never has two keys down at once. *)
Theorem emission_bound_and_order (P : platform) :
  (forall C f g,
     release_then_press (uart_of (events_of (Key.loop_body P C f g)))) /\
  (forall table f g,
     release_then_press (uart_of (events_of (Piano.loop_body P table f g)))) /\
  (forall C fs,
     one_key_at_a_time None (uart_of (events_of (Key.run P C fs Key.initial)))) /\
  (forall table fs,
     one_key_at_a_time None (uart_of (events_of (Piano.run P table fs Piano.initial)))).
Proof.
  repeat split.
  - destruct (key_frame_summary P C f g) as (_ & Hu & _). rewrite Hu.
    apply transmit_shape.
  - destruct (key_frame_summary P C f g) as (_ & Hu & _). rewrite Hu.
    apply transmit_shape.
  - destruct (key_frame_summary P C f g) as (_ & Hu & _). rewrite Hu.
    apply transmit_shape.
  - destruct (piano_frame_summary P table f g) as (_ & Hu & _). rewrite Hu.
    apply transmit_shape.
  - destruct (piano_frame_summary P table f g) as (_ & Hu & _). rewrite Hu.
    apply transmit_shape.
  - destruct (piano_frame_summary P table f g) as (_ & Hu & _). rewrite Hu.
    apply transmit_shape.
  - intros C fs. apply (key_run_one_key P C fs Key.initial).
  - intros table fs. apply (piano_run_one_key P table fs Piano.initial).
Qed.

Lemma held_some (k : string) : k <> EmptyString -> held (Some k) = Some k.
Proof. intros H. unfold held. apply truthy_some in H. now rewrite H. Qed.

Lemma held_truthy (k : option string) : held k = None <-> truthy k = false.
Proof.
  unfold held. destruct (truthy k) eqn:E; [|tauto].
  destruct k; [|discriminate E]. split; discriminate.
Qed.

Lemma key_detect_no_blob (table : list key_info) : Key.detect table [] = (None, None).
Proof. reflexivity. Qed.

Lemma debounced_none (P : platform) (C : Key.config) (g : Key.globals) (t : Z) :
  Key.debounced P C g t None = None.
Proof. reflexivity. Qed.

Lemma debounced_inside_window (P : platform) (C : Key.config) (g : Key.globals)
    (t : Z) (k : option string) :
  ticks_diff P t (Key.last_key_time g) < Key.debounce_time C ->
  held (Key.debounced P C g t k) = None /\
  (truthy k = true -> Key.debounced P C g t k = None).
Proof.
  intros H. apply Z.ltb_lt in H. unfold Key.debounced. rewrite H, andb_true_r.
  destruct (truthy k) eqn:E; split; try reflexivity; try discriminate.
  now apply held_truthy.
Qed.

Lemma debounced_outside_window (P : platform) (C : Key.config) (g : Key.globals)
    (t : Z) (k : option string) :
  Key.debounce_time C <= ticks_diff P t (Key.last_key_time g) ->
  Key.debounced P C g t k = k.
Proof.
  intros H. apply Z.ltb_ge in H. unfold Key.debounced. now rewrite H, andb_false_r.
Qed.

Lemma transmit_release (P : platform) (k : string) :
  k <> EmptyString -> uart_accepts P (release_cmd k) = true ->
  transmit P (Some k) None = (true, [release_cmd k]).
Proof.
  intros Hk Ha. unfold transmit. rewrite (held_some k Hk), Ha. reflexivity.
Qed.

(** C3: in a frame without blobs, while a key is held, either script writes
    exactly one command, the release of the held key, sets the key variable to
    [None], and the iteration ends normally. A held key is a key that is true
    in Python, as every key of both tables is. *)
Theorem release_on_no_detection (P : platform) (f : frame) (k : string) :
  blobs f = [] ->
  k <> EmptyString ->
  uart_accepts P (release_cmd k) = true ->
  (forall C g, Key.last_pressed_key g = Some k ->
     let r := Key.loop_body P C f g in
     completed r = true /\
     uart_of (events_of r) = [release_cmd k] /\
     Key.last_pressed_key (vars_of r) = None) /\
  (forall table g, Piano.last_pressed_key g = Some k ->
     let r := Piano.loop_body P table f g in
     completed r = true /\
     uart_of (events_of r) = [release_cmd k] /\
     Piano.last_pressed_key (vars_of r) = None).
Proof.
  intros Hb Hk Ha. split.
  - intros C g Hg r. subst r.
    destruct (key_frame_summary P C f g) as (Hc & Hu & Hl & _).
    rewrite Hb, key_detect_no_blob in *. cbn [fst] in *.
    rewrite debounced_none, Hg, (transmit_release P k Hk Ha) in *.
    cbn [fst snd] in *. rewrite Hc in Hl. auto.
  - intros table g Hg r. subst r.
    destruct (piano_frame_summary P table f g) as (Hc & Hu & Hl).
    rewrite Hb in *. change (Piano.detect table []) with (@None string) in *.
    rewrite Hg, (transmit_release P k Hk Ha) in *.
    cbn [fst snd] in *. rewrite Hc in Hl. auto.
Qed.

Lemma release_on_no_detection_witness :
  uart_of (events_of (Key.loop_body ideal_board Key.source_config (no_blob 1300)
                        (Key.Globals (Some "J"%string) 1000 (Some (179, 161)) 0)))
    = [release_cmd "J"] /\
  uart_of (events_of (Piano.loop_body ideal_board Piano.pianokey_map_data (no_blob 1300)
                        (Piano.Globals (Some "C4"%string))))
    = [release_cmd "C4"].
Proof.
  split.
  - refine (proj1 (proj2 (proj1 (release_on_no_detection ideal_board (no_blob 1300) "J"
              eq_refl _ eq_refl) Key.source_config
              (Key.Globals (Some "J"%string) 1000 (Some (179, 161)) 0) eq_refl))).
    discriminate.
  - refine (proj1 (proj2 (proj2 (release_on_no_detection ideal_board (no_blob 1300) "C4"
              eq_refl _ eq_refl) Piano.pianokey_map_data
              (Piano.Globals (Some "C4"%string)) eq_refl))).
    discriminate.
Defined.

(** C2: in a frame of key.py that has a candidate key and comes less than
    the debounce time after the last transition, the candidate is turned into
    [None] and no press is written; a press is written only in a frame at
    least the debounce time after the last transition, whose time
    [last_key_time] records; and a [None] candidate releases the held key
    whatever the time. *)
Theorem debounce_asymmetry (P : platform) (C : Key.config) (f : frame) (g : Key.globals) :
  let r := Key.loop_body P C f g in
  let cand := fst (Key.detect (Key.zones C) (blobs f)) in
  let new := Key.debounced P C g (ticks_ms f) cand in
  let w := uart_of (events_of r) in
  (cand <> None ->
   ticks_diff P (ticks_ms f) (Key.last_key_time g) < Key.debounce_time C ->
   count is_press w = 0%nat /\ held new = None /\
   (truthy cand = true -> new = None)) /\
  (count is_press w <> 0%nat ->
   Key.debounce_time C <= ticks_diff P (ticks_ms f) (Key.last_key_time g)) /\
  (Key.last_key_time (vars_of r) =
     if completed r && key_neq new (Key.last_pressed_key g)
     then ticks_ms f else Key.last_key_time g) /\
  (cand = None ->
   forall k, Key.last_pressed_key g = Some k -> k <> EmptyString ->
   uart_accepts P (release_cmd k) = true ->
   completed r = true /\ w = [release_cmd k] /\
   Key.last_pressed_key (vars_of r) = None).
Proof.
  cbv zeta.
  destruct (key_frame_summary P C f g) as (Hc & Hu & Hl & Ht & _).
  split; [|split; [|split]].
  - intros _ Hlt.
    destruct (debounced_inside_window P C g (ticks_ms f)
                (fst (Key.detect (Key.zones C) (blobs f))) Hlt) as [Hh Hn].
    split; [|split; assumption].
    rewrite Hu. apply transmit_no_press. exact Hh.
  - intros Hp.
    destruct (Z.le_gt_cases (Key.debounce_time C)
                (ticks_diff P (ticks_ms f) (Key.last_key_time g))) as [Hle|Hlt];
      [exact Hle|].
    exfalso. apply Hp. rewrite Hu. apply transmit_no_press.
    now apply debounced_inside_window.
  - exact Ht.
  - intros Hcand k Hg Hk Ha. rewrite Hcand, debounced_none, Hg in *.
    rewrite (transmit_release P k Hk Ha) in *. cbn [fst snd] in *.
    rewrite Hc in Hl. auto.
Qed.

Lemma debounce_asymmetry_witness :
  count is_press
    (uart_of (events_of (Key.loop_body ideal_board Key.source_config (one_blob 150 150 1080)
                           (Key.Globals None 1030 None 0)))) = 0%nat /\
  uart_of (events_of (Key.loop_body ideal_board Key.source_config (one_blob 5 5 1010)
                        (Key.Globals (Some "J"%string) 1000 (Some (179, 161)) 0)))
    = [release_cmd "J"].
Proof.
  split.
  - refine (proj1 (proj1 (debounce_asymmetry ideal_board Key.source_config
              (one_blob 150 150 1080) (Key.Globals None 1030 None 0)) _ _)).
    + discriminate.
    + reflexivity.
  - refine (proj1 (proj2 (proj2 (proj2 (proj2 (debounce_asymmetry ideal_board
              Key.source_config (one_blob 5 5 1010)
              (Key.Globals (Some "J"%string) 1000 (Some (179, 161)) 0))))
              eq_refl "J"%string eq_refl _ eq_refl))).
    discriminate.
Defined.

(** ** Steady hold *)

(** piano.py sends nothing and changes nothing while the lookup keeps giving
    the key it holds. *)
Lemma piano_steady_hold (P : platform) (table : list key_info) (f : frame)
    (g : Piano.globals) :
  Piano.detect table (blobs f) = Piano.last_pressed_key g ->
  Piano.loop_body P table f g = (Normal tt, g, []).
Proof.
  intros H. unfold Piano.loop_body, Piano.state_machine. rewrite H.
  run_monad. rewrite key_neq_refl. reflexivity.
Qed.

(** key.py sends nothing for a repeated key once the debounce time has passed
    since the last transition. *)
Lemma key_steady_hold_outside_window (P : platform) (C : Key.config) (f : frame)
    (g : Key.globals) :
  fst (Key.detect (Key.zones C) (blobs f)) = Key.last_pressed_key g ->
  Key.debounce_time C <= ticks_diff P (ticks_ms f) (Key.last_key_time g) ->
  let r := Key.loop_body P C f g in
  completed r = true /\ uart_of (events_of r) = [] /\
  Key.last_pressed_key (vars_of r) = Key.last_pressed_key g /\
  Key.last_key_time (vars_of r) = Key.last_key_time g.
Proof.
  intros Hk Hw r. subst r.
  destruct (key_frame_summary P C f g) as (Hc & Hu & Hl & Ht & _).
  rewrite (debounced_outside_window P C g _ _ Hw), Hk in *.
  unfold transmit in *. rewrite key_neq_refl in *. cbn [fst snd] in *.
  rewrite Hc in *. cbn [andb] in *. auto.
Qed.

(** Inside the debounce window key.py releases the very key that the blob is
    still on. *)
Lemma key_steady_hold_inside_window (P : platform) (C : Key.config) (f : frame)
    (g : Key.globals) (k : string) :
  fst (Key.detect (Key.zones C) (blobs f)) = Some k ->
  Key.last_pressed_key g = Some k ->
  k <> EmptyString ->
  ticks_diff P (ticks_ms f) (Key.last_key_time g) < Key.debounce_time C ->
  uart_accepts P (release_cmd k) = true ->
  let r := Key.loop_body P C f g in
  uart_of (events_of r) = [release_cmd k] /\
  Key.last_pressed_key (vars_of r) = None /\
  Key.last_key_time (vars_of r) = ticks_ms f.
Proof.
  intros Hk Hg Hne Hw Ha r. subst r.
  destruct (key_frame_summary P C f g) as (Hc & Hu & Hl & Ht & _).
  destruct (debounced_inside_window P C g (ticks_ms f) (Some k) Hw) as [_ Hn].
  rewrite Hk, Hn, Hg in * by (now apply truthy_some).
  rewrite (transmit_release P k Hne Ha) in *. cbn [fst snd] in *.
  rewrite Hc in *. auto.
Qed.

(** C1, on the code: with key.py's own table and its debounce time of 200 ms,
    a blob that stays on the zone "J" for five frames 30 ms apart, after an
    idle start, makes key.py write the press of "J" and, one frame later, the
    release of "J", where a single press is claimed. piano.py, on the same
    frames and table, writes the single press. *)
Theorem steady_hold_five_frames :
  let fs := [one_blob 180 160 1000; one_blob 180 160 1030; one_blob 180 160 1060;
             one_blob 180 160 1090; one_blob 180 160 1120] in
  uart_of (events_of (Key.run ideal_board Key.source_config fs Key.initial))
    = [press_cmd "J"; release_cmd "J"] /\
  Key.last_pressed_key (vars_of (Key.run ideal_board Key.source_config fs Key.initial))
    = None /\
  uart_of (events_of (Piano.run ideal_board Key.keymap_data fs Piano.initial))
    = [press_cmd "J"].
Proof. cbv zeta. repeat split; vm_compute; reflexivity. Qed.

(** ** Order of the writes and of the assignment *)

(** C8, as stated, fails: when the write of the press raises, the key
    variable still holds the previous value, not the new candidate. *)
Lemma failed_write_leaves_previous_key :
  let rk := Key.loop_body dead_link Key.source_config (one_blob 180 160 1000)
              Key.initial in
  let rp := Piano.loop_body dead_link Piano.pianokey_map_data (one_blob 50 190 1000)
              Piano.initial in
  fst (fst rk) = Raised (press_cmd "J") /\
  Key.last_pressed_key (vars_of rk) = None /\
  Key.last_pressed_key (vars_of rk) <> Some "J"%string /\
  fst (fst rp) = Raised (press_cmd "C4") /\
  Piano.last_pressed_key (vars_of rp) = None /\
  Piano.last_pressed_key (vars_of rp) <> Some "C4"%string.
Proof. cbv zeta. repeat split; try discriminate; vm_compute; reflexivity. Qed.

(** C8 (amended): both scripts assign the key variable (and key.py its
    transition time) only after the writes of the frame have returned: in a
    frame that a write ends by raising, the variables keep the values they had
    before the frame; in a frame that ends normally, the key variable holds
    the new candidate. *)
Theorem state_assigned_after_writes (P : platform) :
  (forall C f g,
     let r := Key.loop_body P C f g in
     (completed r = false ->
      Key.last_pressed_key (vars_of r) = Key.last_pressed_key g /\
      Key.last_key_time (vars_of r) = Key.last_key_time g) /\
     (completed r = true ->
      Key.last_pressed_key (vars_of r) =
        Key.debounced P C g (ticks_ms f) (fst (Key.detect (Key.zones C) (blobs f))))) /\
  (forall table f g,
     let r := Piano.loop_body P table f g in
     (completed r = false ->
      Piano.last_pressed_key (vars_of r) = Piano.last_pressed_key g) /\
     (completed r = true ->
      Piano.last_pressed_key (vars_of r) = Piano.detect table (blobs f))).
Proof.
  split.
  - intros C f g r. subst r.
    destruct (key_frame_summary P C f g) as (_ & _ & Hl & Ht & _).
    split; intros Hc; rewrite Hc in *; auto.
  - intros table f g r. subst r.
    destruct (piano_frame_summary P table f g) as (_ & _ & Hl).
    split; intros Hc; rewrite Hc in *; auto.
Qed.

Lemma state_assigned_after_writes_witness :
  Key.last_pressed_key
    (vars_of (Key.loop_body dead_link Key.source_config (one_blob 180 160 1000)
                Key.initial)) = None /\
  Piano.last_pressed_key
    (vars_of (Piano.loop_body ideal_board Piano.pianokey_map_data (one_blob 50 190 1000)
                Piano.initial)) = Some "C4"%string.
Proof.
  split.
  - refine (proj1 (proj1 (proj1 (state_assigned_after_writes dead_link)
              Key.source_config (one_blob 180 160 1000) Key.initial) _)).
    reflexivity.
  - refine (proj2 (proj2 (state_assigned_after_writes ideal_board)
              Piano.pianokey_map_data (one_blob 50 190 1000) Piano.initial) _).
    reflexivity.
Defined.

(** ** The last center coordinates *)

(** C9, as stated, fails: a blob on "J" and then a blob at (5, 5), which no
    zone of key.py's table contains, leave [last_center_coords] at the center
    of "J" although the second frame has a blob and resolves to no zone. *)
Lemma unmapped_blob_keeps_center :
  let fs := [one_blob 180 160 1000; one_blob 5 5 1300] in
  blobs (one_blob 5 5 1300) <> [] /\
  Key.detect Key.keymap_data (blobs (one_blob 5 5 1300)) = (None, None) /\
  Key.last_center_coords
    (vars_of (Key.run ideal_board Key.source_config fs Key.initial))
    = Some (179, 161) /\
  Key.last_center_coords
    (vars_of (Key.run ideal_board Key.source_config fs Key.initial))
    <> snd (Key.detect Key.keymap_data (blobs (one_blob 5 5 1300))).
Proof. cbv zeta. repeat split; try discriminate; vm_compute; reflexivity. Qed.

(** C9 (amended): in a frame whose blob resolves to a zone other than the
    "NULL" placeholder, [last_center_coords] becomes that zone's center; in
    a frame whose blob resolves to no such zone it keeps its value; in a frame
    without blobs it becomes [None], whatever the key state and whether or not
    anything is sent; and the update changes no other variable, sends nothing
    and cannot raise. *)
Theorem center_coords_rule (P : platform) (C : Key.config) (f : frame) (g : Key.globals) :
  let r := Key.loop_body P C f g in
  (forall b ki,
     main_blob (blobs f) = Some b ->
     first_hit (Key.zones C) (cx b) (cy b) = Some ki ->
     key ki <> "NULL"%string ->
     Key.last_center_coords (vars_of r) = Some (center ki)) /\
  (blobs f <> [] -> snd (Key.detect (Key.zones C) (blobs f)) = None ->
   Key.last_center_coords (vars_of r) = Key.last_center_coords g) /\
  (blobs f = [] -> Key.last_center_coords (vars_of r) = None) /\
  (forall c,
     let u := Key.update_center (blobs f) c g in
     completed u = true /\ events_of u = [] /\
     Key.last_pressed_key (vars_of u) = Key.last_pressed_key g /\
     Key.last_key_time (vars_of u) = Key.last_key_time g /\
     Key.last_print_time (vars_of u) = Key.last_print_time g).
Proof.
  cbv zeta.
  destruct (key_frame_summary P C f g) as (_ & _ & _ & _ & Hcc).
  split; [|split; [|split]].
  - intros b ki Hb Hh Hk. rewrite Hcc, (key_detect_hit _ _ _ _ Hb Hh).
    apply String.eqb_neq in Hk. rewrite Hk. cbn [snd].
    destruct (blobs f); [discriminate Hb|reflexivity].
  - intros Hb Hn. rewrite Hcc, Hn.
    destruct (blobs f); [contradiction|reflexivity].
  - intros Hb. rewrite Hcc, Hb. reflexivity.
  - intros c. rewrite update_center_run. repeat split.
Qed.

Lemma center_coords_rule_witness :
  Key.last_center_coords
    (vars_of (Key.loop_body ideal_board Key.source_config (one_blob 180 160 1000)
                Key.initial)) = Some (179, 161) /\
  Key.last_center_coords
    (vars_of (Key.loop_body ideal_board Key.source_config (one_blob 5 5 1300)
                (Key.Globals (Some "J"%string) 1000 (Some (179, 161)) 0)))
    = Some (179, 161) /\
  Key.last_center_coords
    (vars_of (Key.loop_body ideal_board Key.source_config (no_blob 1300)
                (Key.Globals None 1030 (Some (179, 161)) 0))) = None.
Proof.
  split; [|split].
  - refine (proj1 (center_coords_rule ideal_board Key.source_config
              (one_blob 180 160 1000) Key.initial)
              (Blob 180 160 100) (KeyInfo (179, 161) (174, 152, 30, 30) "J") _ _ _).
    + reflexivity.
    + reflexivity.
    + discriminate.
  - refine (proj1 (proj2 (center_coords_rule ideal_board Key.source_config
              (one_blob 5 5 1300)
              (Key.Globals (Some "J"%string) 1000 (Some (179, 161)) 0))) _ _).
    + discriminate.
    + reflexivity.
  - refine (proj1 (proj2 (proj2 (center_coords_rule ideal_board Key.source_config
              (no_blob 1300) (Key.Globals None 1030 (Some (179, 161)) 0))))  _).
    reflexivity.
Defined.

(** ** The two scripts side by side *)

Lemma first_hit_in (table : list key_info) (px py : Z) (ki : key_info) :
  first_hit table px py = Some ki -> In ki table.
Proof.
  intros H. destruct (first_hit_split _ _ _ _ H) as (l1 & l2 & -> & _).
  apply in_or_app. right. now left.
Qed.

Lemma detect_agree (table : list key_info) (bs : list blob) :
  no_null_entry table ->
  fst (Key.detect table bs) = Piano.detect table bs.
Proof.
  intros Hn. unfold Key.detect, Piano.detect.
  destruct (main_blob bs) as [b|]; [|reflexivity].
  destruct (first_hit table (cx b) (cy b)) as [ki|] eqn:Hh; [|reflexivity].
  apply first_hit_in in Hh.
  unfold no_null_entry in Hn. rewrite Forall_forall in Hn.
  specialize (Hn ki Hh). apply String.eqb_neq in Hn. now rewrite Hn.
Qed.

Lemma gate_idle (P : platform) (C : Key.config) (g : Key.globals) (f : frame) :
  gate_fires P C g f = false ->
  Key.debounced P C g (ticks_ms f) (fst (Key.detect (Key.zones C) (blobs f)))
    = fst (Key.detect (Key.zones C) (blobs f)).
Proof. unfold gate_fires, Key.debounced. now intros ->. Qed.

Lemma frames_agree (P : platform) (C : Key.config) (f : frame)
    (g : Key.globals) (gp : Piano.globals) :
  no_null_entry (Key.zones C) ->
  gate_fires P C g f = false ->
  Key.last_pressed_key g = Piano.last_pressed_key gp ->
  let rk := Key.loop_body P C f g in
  let rp := Piano.loop_body P (Key.zones C) f gp in
  completed rk = completed rp /\
  uart_of (events_of rk) = uart_of (events_of rp) /\
  Key.last_pressed_key (vars_of rk) = Piano.last_pressed_key (vars_of rp).
Proof.
  intros Hn Hg Hl rk rp. subst rk rp.
  destruct (key_frame_summary P C f g) as (Hc & Hu & Hk & _).
  destruct (piano_frame_summary P (Key.zones C) f gp) as (Hc' & Hu' & Hk').
  rewrite (gate_idle P C g f Hg), (detect_agree _ _ Hn), Hl in *.
  rewrite Hc, Hu, Hk, Hc', Hu', Hk', Hc, Hc'. auto.
Qed.

(** A clock that does not run backwards keeps a debounce time of zero or less
    from ever firing. *)
Lemma monotone_clock_gate_never_fires (P : platform) (C : Key.config) (fs : list frame) :
  Key.debounce_time C <= 0 ->
  (forall a b, b <= a -> 0 <= ticks_diff P a b) ->
  forall g t0,
    Key.last_key_time g <= t0 ->
    nondecreasing_from t0 fs ->
    gate_never_fires P C g fs.
Proof.
  intros Hd Hp. induction fs as [|f rest IH]; intros g t0 Hg Hs; [exact I|].
  destruct Hs as [Hf Hrest]. cbn [gate_never_fires]. split.
  - unfold gate_fires. apply andb_false_iff. right. apply Z.ltb_ge.
    specialize (Hp (ticks_ms f) (Key.last_key_time g)). lia.
  - apply (IH _ (ticks_ms f)); [|exact Hrest].
    destruct (key_frame_summary P C f g) as (_ & _ & _ & Ht & _).
    rewrite Ht. destruct (_ && _); lia.
Qed.

(** C10, as stated, fails. With the same one-zone table and a debounce time of
    zero, a blob on a zone whose key is "NULL" makes piano.py press "NULL"
    and key.py send nothing; and with key.py's table and its debounce time of
    200 ms, a blob that leaves "J" and shows up on "H" 50 ms after the release
    makes piano.py press "H" and key.py send nothing. *)
Lemma variants_differ :
  let table := [KeyInfo (5, 5) (0, 0, 10, 10) "NULL"] in
  let fs := [one_blob 180 160 2500; no_blob 2800; one_blob 150 150 2850] in
  uart_of (events_of (Key.run ideal_board (Key.Config table 0 2000)
                        [one_blob 4 4 2500] Key.initial)) = [] /\
  uart_of (events_of (Piano.run ideal_board table [one_blob 4 4 2500] Piano.initial))
    = [press_cmd "NULL"] /\
  uart_of (events_of (Key.run ideal_board Key.source_config fs Key.initial))
    = [press_cmd "J"; release_cmd "J"] /\
  uart_of (events_of (Piano.run ideal_board Key.keymap_data fs Piano.initial))
    = [press_cmd "J"; release_cmd "J"; press_cmd "H"] /\
  uart_of (events_of (Key.run ideal_board Key.source_config fs Key.initial))
    <> uart_of (events_of (Piano.run ideal_board Key.keymap_data fs Piano.initial)).
Proof. cbv zeta. repeat split; try discriminate; vm_compute; reflexivity. Qed.

(** C10 (amended): on a table without a "NULL" entry the two lookups give the
    same key, and along every frame sequence on which key.py's debounce check
    never fires, the two scripts, started with the same key variable on the
    same board, end the same way, write the same commands in the same order
    and hold the same key. *)
Theorem variants_agree (P : platform) (C : Key.config) (fs : list frame) :
  no_null_entry (Key.zones C) ->
  (forall bs, fst (Key.detect (Key.zones C) bs) = Piano.detect (Key.zones C) bs) /\
  (forall g gp,
     gate_never_fires P C g fs ->
     Key.last_pressed_key g = Piano.last_pressed_key gp ->
     let rk := Key.run P C fs g in
     let rp := Piano.run P (Key.zones C) fs gp in
     completed rk = completed rp /\
     uart_of (events_of rk) = uart_of (events_of rp) /\
     Key.last_pressed_key (vars_of rk) = Piano.last_pressed_key (vars_of rp)).
Proof.
  intros Hn. split; [intros bs; now apply detect_agree|].
  cbv zeta. unfold Key.run, Piano.run.
  induction fs as [|f rest IH]; intros g gp Hg Hl; [now repeat split|].
  destruct Hg as [Hf Hrest]. cbn [iterate].
  rewrite !seq_completed, !seq_uart, !seq_vars.
  destruct (frames_agree P C f g gp Hn Hf Hl) as (Hc & Hu & Hk).
  rewrite Hc, Hu.
  destruct (completed (Piano.loop_body P (Key.zones C) f gp)); cbn [andb].
  - destruct (IH _ _ Hrest Hk) as (Hc' & Hu' & Hk').
    rewrite Hc', Hu', Hk'. auto.
  - auto.
Qed.

Lemma variants_agree_witness :
  uart_of (events_of (Key.run ideal_board (Key.Config Key.keymap_data 0 2000)
                        [one_blob 180 160 2500; one_blob 180 160 2530; no_blob 2560]
                        Key.initial))
  = uart_of (events_of (Piano.run ideal_board Key.keymap_data
                          [one_blob 180 160 2500; one_blob 180 160 2530; no_blob 2560]
                          Piano.initial)).
Proof.
  refine (proj1 (proj2 (proj2 (variants_agree ideal_board
            (Key.Config Key.keymap_data 0 2000)
            [one_blob 180 160 2500; one_blob 180 160 2530; no_blob 2560] _)
            Key.initial Piano.initial _ eq_refl))).
  - repeat constructor; discriminate.
  - simpl. repeat split; reflexivity.
Defined.

(** ** Blob selection *)

Lemma max_from_spec (rest : list blob) :
  forall best,
    In (max_from best rest) (best :: rest) /\
    (forall b, In b (best :: rest) -> pixels b <= pixels (max_from best rest)).
Proof.
  induction rest as [|x rest IH]; intros best; cbn [max_from].
  - split; [now left|]. intros b [<-|[]]. lia.
  - destruct (pixels x >? pixels best) eqn:E.
    + apply Z.gtb_lt in E. destruct (IH x) as [Hin Hmax]. split.
      * right. exact Hin.
      * intros b [<-|Hb]; [|now apply Hmax].
        specialize (Hmax x (or_introl eq_refl)). lia.
    + assert (pixels x <= pixels best)
        by (rewrite Z.gtb_ltb in E; apply Z.ltb_ge in E; lia).
      destruct (IH best) as [Hin Hmax]. split.
      * destruct Hin as [Hin|Hin]; [now left|right; now right].
      * intros b [<-|[<-|Hb]].
        -- apply Hmax. now left.
        -- specialize (Hmax best (or_introl eq_refl)). lia.
        -- apply Hmax. now right.
Qed.

(** The selected blob is one of the frame's blobs and none has more pixels. *)
Lemma main_blob_max (bs : list blob) (b : blob) :
  main_blob bs = Some b ->
  In b bs /\ forall b', In b' bs -> pixels b' <= pixels b.
Proof.
  destruct bs as [|x rest]; [discriminate|].
  intros H. injection H as <-. apply max_from_spec.
Qed.

(** Ties go to the blob met first. *)
Lemma max_from_keeps_first (rest : list blob) (best : blob) :
  Forall (fun b => pixels b <= pixels best) rest -> max_from best rest = best.
Proof.
  induction 1 as [|x rest Hx _ IH]; cbn [max_from]; [reflexivity|].
  rewrite Z.gtb_ltb. apply Z.ltb_ge in Hx. now rewrite Hx.
Qed.

(** ** Keys that are held come from the table *)

Lemma key_detect_from_table (table : list key_info) (bs : list blob) (k : string) :
  fst (Key.detect table bs) = Some k -> exists ki, In ki table /\ key ki = k.
Proof.
  unfold Key.detect. destruct (main_blob bs) as [b|]; [|discriminate].
  destruct (first_hit table (cx b) (cy b)) as [ki|] eqn:Hh; [|discriminate].
  destruct (negb (key ki =? "NULL")%string); [|discriminate].
  cbn [fst]. intros H. injection H as <-. exists ki.
  split; [eapply first_hit_in; exact Hh|reflexivity].
Qed.

Lemma piano_detect_from_table (table : list key_info) (bs : list blob) (k : string) :
  Piano.detect table bs = Some k -> exists ki, In ki table /\ key ki = k.
Proof.
  unfold Piano.detect. destruct (main_blob bs) as [b|]; [|discriminate].
  destruct (first_hit table (cx b) (cy b)) as [ki|] eqn:Hh; [|discriminate].
  intros H. injection H as <-. exists ki.
  split; [eapply first_hit_in; exact Hh|reflexivity].
Qed.

Lemma proper_key_of_table (table : list key_info) (k : option string) :
  no_empty_key table ->
  (forall s, k = Some s -> exists ki, In ki table /\ key ki = s) ->
  proper_key k.
Proof.
  intros Ht Hk. destruct k as [s|]; [|reflexivity].
  destruct (Hk s eq_refl) as (ki & Hin & <-).
  unfold no_empty_key in Ht. rewrite Forall_forall in Ht.
  apply held_some. now apply Ht.
Qed.

(** With a table whose keys are all non-empty, key.py never holds a key that
    is false in Python. *)
Lemma key_run_proper_key (P : platform) (C : Key.config) (fs : list frame) :
  no_empty_key (Key.zones C) ->
  forall g, proper_key (Key.last_pressed_key g) ->
            proper_key (Key.last_pressed_key (vars_of (Key.run P C fs g))).
Proof.
  intros Ht. unfold Key.run.
  induction fs as [|f rest IH]; intros g Hg; [exact Hg|].
  cbn [iterate]. rewrite seq_vars.
  destruct (key_frame_summary P C f g) as (_ & _ & Hk & _).
  destruct (completed (Key.loop_body P C f g)).
  - apply IH. rewrite Hk. unfold Key.debounced.
    destruct (_ && _); [reflexivity|].
    apply (proper_key_of_table (Key.zones C)); [exact Ht|].
    intros s Hs. eapply key_detect_from_table; exact Hs.
  - rewrite Hk. exact Hg.
Qed.

Lemma piano_run_proper_key (P : platform) (table : list key_info) (fs : list frame) :
  no_empty_key table ->
  forall g, proper_key (Piano.last_pressed_key g) ->
            proper_key (Piano.last_pressed_key (vars_of (Piano.run P table fs g))).
Proof.
  intros Ht. unfold Piano.run.
  induction fs as [|f rest IH]; intros g Hg; [exact Hg|].
  cbn [iterate]. rewrite seq_vars.
  destruct (piano_frame_summary P table f g) as (_ & _ & Hk).
  destruct (completed (Piano.loop_body P table f g)).
  - apply IH. rewrite Hk.
    apply (proper_key_of_table table); [exact Ht|].
    intros s Hs. eapply piano_detect_from_table; exact Hs.
  - rewrite Hk. exact Hg.
Qed.

Lemma source_tables_have_keys :
  no_empty_key Key.keymap_data /\ no_empty_key Piano.pianokey_map_data /\
  no_null_entry Key.keymap_data /\ no_null_entry Piano.pianokey_map_data.
Proof. repeat split; repeat constructor; discriminate. Qed.

(** ** The scenarios of the specification, on key.py's own configuration *)

Example scenario_A :
  fst (Key.detect Key.keymap_data [Blob 180 160 100]) = Some "J"%string /\
  uart_of (events_of (Key.loop_body ideal_board Key.source_config
                        (one_blob 180 160 2500) Key.initial)) = [press_cmd "J"].
Proof. split; vm_compute; reflexivity. Qed.

Example scenario_C :
  let r := Key.run ideal_board Key.source_config
             [one_blob 180 160 2500; no_blob 2800] Key.initial in
  uart_of (events_of r) = [press_cmd "J"; release_cmd "J"] /\
  Key.last_pressed_key (vars_of r) = None /\
  Key.last_center_coords (vars_of r) = None.
Proof. cbv zeta. repeat split; vm_compute; reflexivity. Qed.

Example scenario_D :
  let to_H t := one_blob 150 150 t in
  uart_of (events_of (Key.run ideal_board Key.source_config
                        [one_blob 180 160 2500; no_blob 2800; to_H 2850; to_H 2999]
                        Key.initial))
    = [press_cmd "J"; release_cmd "J"] /\
  uart_of (events_of (Key.run ideal_board Key.source_config
                        [one_blob 180 160 2500; no_blob 2800; to_H 2850; to_H 3000]
                        Key.initial))
    = [press_cmd "J"; release_cmd "J"; press_cmd "H"].
Proof. cbv zeta. split; vm_compute; reflexivity. Qed.

Example scenario_E :
  events_of (Key.run ideal_board Key.source_config
               [no_blob 500; no_blob 1000; no_blob 1500; no_blob 2000; no_blob 2100]
               Key.initial)
    = [Console LogTimerNone].
Proof. vm_compute. reflexivity. Qed.

(** * Further properties of the two scripts *)

(** ** Blob selection, in full *)

Lemma max_from_first_largest (rest : list blob) :
  forall best,
    exists l1 l2,
      best :: rest = l1 ++ max_from best rest :: l2 /\
      Forall (fun x => pixels x < pixels (max_from best rest)) l1 /\
      Forall (fun x => pixels x <= pixels (max_from best rest)) l2.
Proof.
  induction rest as [|x rest IH]; intros best; cbn [max_from].
  - exists [], []. repeat split; constructor.
  - destruct (pixels x >? pixels best) eqn:E.
    + apply Z.gtb_lt in E.
      destruct (IH x) as (l1 & l2 & Heq & H1 & H2).
      destruct (max_from_spec rest x) as [_ Hmax].
      specialize (Hmax x (or_introl eq_refl)).
      exists (best :: l1), l2. rewrite Heq. repeat split; auto.
      constructor; [lia|exact H1].
    + assert (Hx : pixels x <= pixels best)
        by (rewrite Z.gtb_ltb in E; apply Z.ltb_ge in E; lia).
      destruct (IH best) as (l1 & l2 & Heq & H1 & H2).
      destruct l1 as [|y l1].
      * cbn [app] in Heq. injection Heq as Hb Hr.
        exists [], (x :: l2). rewrite <- Hb in *.
        split; [cbn [app]; do 2 f_equal; exact Hr|]. split; [constructor|].
        constructor; [exact Hx|exact H2].
      * cbn [app] in Heq. injection Heq as Hb Hr. subst y.
        exists (best :: x :: l1), l2.
        split; [cbn [app]; do 2 f_equal; exact Hr|]. split; [|exact H2].
        inversion H1 as [|? ? Hbest Hl1]; subst.
        constructor; [exact Hbest|]. constructor; [lia|exact Hl1].
Qed.

Lemma max_from_reaches (l1 l2 : list blob) (b : blob) :
  forall best,
    pixels best < pixels b ->
    Forall (fun x => pixels x < pixels b) l1 ->
    Forall (fun x => pixels x <= pixels b) l2 ->
    max_from best (l1 ++ b :: l2) = b.
Proof.
  induction l1 as [|x l1 IH]; intros best Hb H1 H2; cbn [app max_from].
  - assert (E : (pixels b >? pixels best) = true) by (apply Z.gtb_lt; lia).
    rewrite E. now apply max_from_keeps_first.
  - inversion H1 as [|? ? Hx Hl1]; subst.
    destruct (pixels x >? pixels best); apply IH; assumption.
Qed.

(** The blob that [max(blobs, key=lambda b: b.pixels())] selects is the first
    blob of the list that has the largest pixel count, and there is one as soon
    as the list is not empty. *)
Theorem main_blob_first_largest (bs : list blob) (b : blob) :
  (main_blob bs = Some b <->
   exists l1 l2,
     bs = l1 ++ b :: l2 /\
     Forall (fun x => pixels x < pixels b) l1 /\
     Forall (fun x => pixels x <= pixels b) l2) /\
  (main_blob bs = None <-> bs = []).
Proof.
  split; [split|].
  - destruct bs as [|x rest]; [discriminate|].
    cbn [main_blob]. intros H. injection H as <-. apply max_from_first_largest.
  - intros (l1 & l2 & -> & H1 & H2).
    destruct l1 as [|x l1]; cbn [app main_blob]; f_equal.
    + now apply max_from_keeps_first.
    + inversion H1; subst. now apply max_from_reaches.
  - destruct bs; split; (reflexivity || discriminate).
Qed.

(** A frame is handled as if it held only the blob selected from it: every
    other blob of the list is without effect on either script. *)
Theorem only_main_blob_matters (bs : list blob) (b : blob) (t : Z) :
  main_blob bs = Some b ->
  (forall P C g,
     Key.loop_body P C (Frame bs t) g = Key.loop_body P C (Frame [b] t) g) /\
  (forall P table g,
     Piano.loop_body P table (Frame bs t) g = Piano.loop_body P table (Frame [b] t) g).
Proof.
  intros Hb. split.
  - intros P C g. unfold Key.loop_body, Key.detect. cbn [blobs ticks_ms].
    rewrite Hb, main_blob_single.
    destruct bs; [discriminate Hb|]. reflexivity.
  - intros P table g. unfold Piano.loop_body, Piano.detect. cbn [blobs].
    now rewrite Hb, main_blob_single.
Qed.

Lemma only_main_blob_matters_witness :
  Key.loop_body ideal_board Key.source_config
    (Frame [Blob 5 5 60; Blob 180 160 90; Blob 150 150 90] 2500) Key.initial
  = Key.loop_body ideal_board Key.source_config (Frame [Blob 180 160 90] 2500)
      Key.initial.
Proof.
  refine (proj1 (only_main_blob_matters
            [Blob 5 5 60; Blob 180 160 90; Blob 150 150 90] (Blob 180 160 90) 2500 _)
            ideal_board Key.source_config Key.initial).
  reflexivity.
Defined.

(** ** The two tables *)

(** Goes down a concrete table at a symbolic point: an entry either cannot
    contain the point, by arithmetic, or is the one looked for. *)
Ltac walk_table :=
  repeat (cbn [first_hit rect key center];
          match goal with
          | |- context [inside ?r ?x ?y] =>
              let E := fresh "E" in
              destruct (inside r x y) eqn:E;
              [ apply inside_iff in E; cbn in E;
                try (exfalso; lia); try reflexivity
              | try congruence;
                try (assert (inside r x y = true) by (apply inside_iff; cbn; lia);
                     congruence) ]
          end).

(** piano.py's zones do not overlap: a point strictly inside the rectangle of
    any entry of [pianokey_map_data] resolves to that entry's key, and the
    center recorded for each entry is such a point. *)
Theorem piano_table_round_trip (ki : key_info) (px py n : Z) :
  In ki Piano.pianokey_map_data ->
  (strictly_inside (rect ki) px py ->
   Piano.detect Piano.pianokey_map_data [Blob px py n] = Some (key ki)) /\
  Piano.detect Piano.pianokey_map_data [Blob (fst (center ki)) (snd (center ki)) n]
    = Some (key ki).
Proof.
  intros Hk. split.
  - intros Hin. pose proof (proj2 (inside_iff px py (rect ki)) Hin) as Hyes.
    unfold Piano.detect. cbn [main_blob max_from cx cy].
    cbn in Hk.
    repeat (destruct Hk as [<-|Hk]); try contradiction;
      cbn in Hin; cbn [rect] in Hyes;
      unfold Piano.pianokey_map_data, Piano.black_keys, Piano.white_keys;
      cbn [app]; walk_table.
  - cbn in Hk. repeat (destruct Hk as [<-|Hk]); try contradiction; reflexivity.
Qed.

Lemma piano_table_round_trip_witness :
  Piano.detect Piano.pianokey_map_data [Blob 45 120 80] = Some "CS4"%string.
Proof.
  refine (proj1 (piano_table_round_trip (KeyInfo (40, 125) (33, 100, 14, 50) "CS4")
                   45 120 80 _) _).
  - cbn. tauto.
  - cbn. lia.
Defined.

(** key.py's table has exactly two overlaps: "H" is listed before "G" and
    takes the part of G's rectangle right of x = 138, and "R" is listed before
    "-" and takes the part of its rectangle below y = 111. Everywhere else a
    point strictly inside the rectangle of an entry of [keymap_data] resolves
    to that entry's key. *)
Theorem key_table_resolution (ki : key_info) (px py n : Z) :
  In ki Key.keymap_data ->
  strictly_inside (rect ki) px py ->
  fst (Key.detect Key.keymap_data [Blob px py n]) =
    Some (if (key ki =? "G")%string && (138 <? px) then "H"%string
          else if (key ki =? "-")%string && (111 <? py) then "R"%string
          else key ki).
Proof.
  intros Hk Hin. pose proof (proj2 (inside_iff px py (rect ki)) Hin) as Hyes.
  unfold Key.detect. cbn [main_blob max_from cx cy].
  cbn in Hk.
  repeat (destruct Hk as [<-|Hk]); try contradiction;
    cbn in Hin; cbn [rect] in Hyes;
    destruct (Z.ltb_spec 138 px), (Z.ltb_spec 111 py);
    cbn [key andb String.eqb Ascii.eqb Bool.eqb];
    unfold Key.keymap_data; walk_table.
Qed.

Lemma key_table_resolution_witness :
  fst (Key.detect Key.keymap_data [Blob 140 150 80]) = Some "H"%string /\
  fst (Key.detect Key.keymap_data [Blob 60 108 80]) = Some "-"%string.
Proof.
  split.
  - refine (key_table_resolution (KeyInfo (120, 150) (115, 141, 30, 30) "G")
              140 150 80 _ _).
    + cbn. tauto.
    + cbn. lia.
  - refine (key_table_resolution (KeyInfo (62, 113) (57, 104, 30, 30) "-")
              60 108 80 _ _).
    + cbn. tauto.
    + cbn. lia.
Defined.

(** ** The command lines *)

Lemma string_app_assoc (a b c : string) :
  ((a ++ b) ++ c = a ++ (b ++ c))%string.
Proof. induction a as [|x a IH]; cbn; [reflexivity|now rewrite IH]. Qed.

Lemma app_lf_inj (k k' : string) : (k ++ LF = k' ++ LF)%string -> k = k'.
Proof.
  revert k'. induction k as [|a k IH]; intros [|b k'] H; cbn in H.
  - reflexivity.
  - injection H as _ H. destruct k'; discriminate H.
  - injection H as _ H. destruct k; discriminate H.
  - injection H as -> H. f_equal. now apply IH.
Qed.

Lemma line_split (k k' s s' : string) :
  no_lf k = true -> no_lf k' = true ->
  (k ++ LF ++ s = k' ++ LF ++ s')%string -> k = k' /\ s = s'.
Proof.
  revert k'. induction k as [|a k IH]; intros [|b k'] Hk Hk' H; cbn in H, Hk, Hk'.
  - injection H as H. now split.
  - injection H as <- _. cbn in Hk'. discriminate Hk'.
  - injection H as -> _. cbn in Hk. discriminate Hk.
  - injection H as -> H.
    apply andb_true_iff in Hk as [_ Hk]. apply andb_true_iff in Hk' as [_ Hk'].
    destruct (IH k' Hk Hk' H) as [-> ->]. now split.
Qed.

Lemma framed_wire_inj (cmds : list string) :
  forall cmds',
    Forall framed_cmd cmds -> Forall framed_cmd cmds' ->
    wire cmds = wire cmds' -> cmds = cmds'.
Proof.
  induction cmds as [|c cmds IH]; intros [|c' cmds'] Hc Hc' H.
  - reflexivity.
  - inversion Hc' as [|? ? (k & _ & [-> | ->]) _]; discriminate H.
  - inversion Hc as [|? ? (k & _ & [-> | ->]) _]; discriminate H.
  - inversion Hc as [|? ? (k & Hk & Hcmd) Hrest]; subst.
    inversion Hc' as [|? ? (k' & Hk' & Hcmd') Hrest']; subst.
    cbn [wire fold_right] in H. fold (wire cmds) in H. fold (wire cmds') in H.
    destruct Hcmd as [-> | ->], Hcmd' as [-> | ->];
      unfold press_cmd, release_cmd in *; cbn in H;
      try discriminate H; injection H as H;
      rewrite !string_app_assoc in H;
      destruct (line_split _ _ _ _ Hk Hk' H) as [-> Hw];
      f_equal; apply IH; assumption.
Qed.

(** The lines written to the UART can be told apart and decoded: a press or
    release line determines its key, a press line is never a release line, and
    when no key contains a line feed the bytes of a sequence of lines written
    one after the other determine the sequence. *)
Theorem command_lines_decodable :
  (forall k k', press_cmd k = press_cmd k' -> k = k') /\
  (forall k k', release_cmd k = release_cmd k' -> k = k') /\
  (forall k k', press_cmd k <> release_cmd k') /\
  (forall cmds cmds',
     Forall framed_cmd cmds -> Forall framed_cmd cmds' ->
     wire cmds = wire cmds' -> cmds = cmds').
Proof.
  split; [|split; [|split]].
  - intros k k' H. unfold press_cmd in H. cbn in H. injection H as H.
    now apply app_lf_inj.
  - intros k k' H. unfold release_cmd in H. cbn in H. injection H as H.
    now apply app_lf_inj.
  - intros k k' H. discriminate H.
  - intros cmds cmds'. apply framed_wire_inj.
Qed.

Lemma command_lines_decodable_witness :
  [press_cmd "J"; release_cmd "J"] = [press_cmd "J"; release_cmd "J"].
Proof.
  apply (proj2 (proj2 (proj2 command_lines_decodable))).
  - repeat constructor; exists "J"%string; (split; [reflexivity|tauto]).
  - repeat constructor; exists "J"%string; (split; [reflexivity|tauto]).
  - reflexivity.
Defined.

(** ** The keys that reach the link *)

Lemma transmit_in (P : platform) (old new : option string) (c : string) :
  In c (snd (transmit P old new)) ->
  (exists k, held old = Some k /\ c = release_cmd k) \/
  (exists k, held new = Some k /\ c = press_cmd k).
Proof.
  unfold transmit.
  destruct (key_neq new old), (held old) as [k|], (held new) as [k'|];
    repeat match goal with
           | |- context [if uart_accepts P ?x then _ else _] =>
               destruct (uart_accepts P x)
           end;
    cbn [snd In]; intros H;
    repeat match goal with H : _ \/ _ |- _ => destruct H as [H|H] end;
    subst; try contradiction; eauto.
Qed.

Lemma held_is_key (k : option string) (s : string) :
  held k = Some s -> k = Some s /\ s <> EmptyString.
Proof.
  unfold held. destruct (truthy k) eqn:E; [|discriminate].
  intros ->. split; [reflexivity|]. now apply truthy_some.
Qed.

Lemma key_detect_never_null (table : list key_info) (bs : list blob) (k : string) :
  fst (Key.detect table bs) = Some k ->
  exists ki, In ki table /\ key ki = k /\ k <> "NULL"%string.
Proof.
  unfold Key.detect. destruct (main_blob bs) as [b|]; [|discriminate].
  destruct (first_hit table (cx b) (cy b)) as [ki|] eqn:Hh; [|discriminate].
  destruct (key ki =? "NULL")%string eqn:E; [discriminate|].
  cbn [negb fst]. intros H. injection H as <-. exists ki.
  split; [eapply first_hit_in; exact Hh|]. split; [reflexivity|].
  now apply String.eqb_neq.
Qed.

Section KeysOnTheLink.

Variable Q : string -> Prop.

Lemma key_run_sends (P : platform) (C : Key.config) (fs : list frame) :
  (forall bs k, fst (Key.detect (Key.zones C) bs) = Some k -> k <> EmptyString -> Q k) ->
  forall g,
    (forall k, held (Key.last_pressed_key g) = Some k -> Q k) ->
    forall c, In c (uart_of (events_of (Key.run P C fs g))) ->
              exists k, Q k /\ (c = press_cmd k \/ c = release_cmd k).
Proof.
  intros Hd. unfold Key.run.
  induction fs as [|f rest IH]; intros g Hg c Hc; [contradiction|].
  cbn [iterate] in Hc. rewrite seq_uart in Hc.
  destruct (key_frame_summary P C f g) as (_ & Hu & Hk & _).
  assert (Hnew : forall k,
             held (Key.debounced P C g (ticks_ms f)
                     (fst (Key.detect (Key.zones C) (blobs f)))) = Some k -> Q k).
  { intros k Hh. apply held_is_key in Hh as [Hh Hne].
    unfold Key.debounced in Hh. destruct (_ && _); [discriminate|].
    now apply (Hd (blobs f)). }
  apply in_app_or in Hc as [Hc|Hc].
  - rewrite Hu in Hc. apply transmit_in in Hc as [(k & Hh & ->)|(k & Hh & ->)].
    + exists k. split; [now apply Hg|now right].
    + exists k. split; [now apply Hnew|now left].
  - destruct (completed (Key.loop_body P C f g)); [|contradiction].
    apply (IH (vars_of (Key.loop_body P C f g))); [|exact Hc].
    rewrite Hk. exact Hnew.
Qed.

Lemma piano_run_sends (P : platform) (table : list key_info) (fs : list frame) :
  (forall bs k, Piano.detect table bs = Some k -> k <> EmptyString -> Q k) ->
  forall g,
    (forall k, held (Piano.last_pressed_key g) = Some k -> Q k) ->
    forall c, In c (uart_of (events_of (Piano.run P table fs g))) ->
              exists k, Q k /\ (c = press_cmd k \/ c = release_cmd k).
Proof.
  intros Hd. unfold Piano.run.
  induction fs as [|f rest IH]; intros g Hg c Hc; [contradiction|].
  cbn [iterate] in Hc. rewrite seq_uart in Hc.
  destruct (piano_frame_summary P table f g) as (_ & Hu & Hk).
  assert (Hnew : forall k, held (Piano.detect table (blobs f)) = Some k -> Q k).
  { intros k Hh. apply held_is_key in Hh as [Hh Hne]. now apply (Hd (blobs f)). }
  apply in_app_or in Hc as [Hc|Hc].
  - rewrite Hu in Hc. apply transmit_in in Hc as [(k & Hh & ->)|(k & Hh & ->)].
    + exists k. split; [now apply Hg|now right].
    + exists k. split; [now apply Hnew|now left].
  - destruct (completed (Piano.loop_body P table f g)); [|contradiction].
    apply (IH (vars_of (Piano.loop_body P table f g))); [|exact Hc].
    rewrite Hk. exact Hnew.
Qed.

End KeysOnTheLink.

(** Started idle, either script only ever writes press and release lines for
    non-empty keys of its table, and key.py never writes a line for the
    "NULL" placeholder, whatever the table, the frames and the link. *)
Theorem only_table_keys_on_the_link (P : platform) (fs : list frame) :
  (forall C c,
     In c (uart_of (events_of (Key.run P C fs Key.initial))) ->
     exists ki,
       In ki (Key.zones C) /\ key ki <> EmptyString /\ key ki <> "NULL"%string /\
       (c = press_cmd (key ki) \/ c = release_cmd (key ki))) /\
  (forall C,
     ~ In (press_cmd "NULL") (uart_of (events_of (Key.run P C fs Key.initial))) /\
     ~ In (release_cmd "NULL") (uart_of (events_of (Key.run P C fs Key.initial)))) /\
  (forall table c,
     In c (uart_of (events_of (Piano.run P table fs Piano.initial))) ->
     exists ki,
       In ki table /\ key ki <> EmptyString /\
       (c = press_cmd (key ki) \/ c = release_cmd (key ki))).
Proof.
  assert (HK : forall C c,
             In c (uart_of (events_of (Key.run P C fs Key.initial))) ->
             exists ki,
               In ki (Key.zones C) /\ key ki <> EmptyString /\
               key ki <> "NULL"%string /\
               (c = press_cmd (key ki) \/ c = release_cmd (key ki))).
  { intros C c Hc.
    destruct (key_run_sends
                (fun k => exists ki, In ki (Key.zones C) /\ key ki = k /\
                                     k <> EmptyString /\ k <> "NULL"%string)
                P C fs) with (g := Key.initial) (c := c)
      as (k & (ki & Hin & <- & Hne & Hnn) & Hcmd); auto.
    - intros bs k Hd Hne.
      destruct (key_detect_never_null _ _ _ Hd) as (ki & Hin & Hk & Hnn). eauto.
    - intros k Hh. discriminate Hh.
    - exists ki. auto. }
  split; [exact HK|]. split.
  - intros C. split; intros Hc; destruct (HK C _ Hc) as (ki & _ & _ & Hnn & [H|H]).
    + apply Hnn. symmetry. unfold press_cmd in H. cbn in H. injection H as H.
      now apply app_lf_inj.
    + discriminate H.
    + discriminate H.
    + apply Hnn. symmetry. unfold release_cmd in H. cbn in H. injection H as H.
      now apply app_lf_inj.
  - intros table c Hc.
    destruct (piano_run_sends
                (fun k => exists ki, In ki table /\ key ki = k /\ k <> EmptyString)
                P table fs) with (g := Piano.initial) (c := c)
      as (k & (ki & Hin & <- & Hne) & Hcmd); auto.
    + intros bs k Hd Hne.
      destruct (piano_detect_from_table _ _ _ Hd) as (ki & Hin & Hk). eauto.
    + intros k Hh. discriminate Hh.
    + exists ki. auto.
Qed.

Lemma only_table_keys_on_the_link_witness :
  exists ki,
    In ki Key.keymap_data /\ key ki <> EmptyString /\ key ki <> "NULL"%string /\
    (press_cmd "J" = press_cmd (key ki) \/ press_cmd "J" = release_cmd (key ki)).
Proof.
  refine (proj1 (only_table_keys_on_the_link ideal_board [one_blob 180 160 2500])
            Key.source_config (press_cmd "J") _).
  vm_compute. left. reflexivity.
Defined.

(** ** The LED and the timer *)

Lemma led_of_app (w1 w2 : list event) : led_of (w1 ++ w2) = led_of w1 ++ led_of w2.
Proof.
  induction w1 as [|e w1 IH]; cbn; [reflexivity|].
  destruct e; cbn; now rewrite IH.
Qed.

Lemma reports_of_app (w1 w2 : list event) :
  reports_of (w1 ++ w2) = reports_of w1 ++ reports_of w2.
Proof.
  induction w1 as [|e w1 IH]; cbn; [reflexivity|].
  destruct e as [c|b|[]]; cbn; now rewrite IH.
Qed.

Lemma seq_events {G} (m k : M G unit) (g : G) :
  events_of ((m ;; k) g) =
    events_of (m g) ++
    (if completed (m g) then events_of (k (vars_of (m g))) else []).
Proof.
  rewrite seq_run. destruct (completed (m g)); [reflexivity|].
  now rewrite app_nil_r.
Qed.

Lemma key_state_machine_side (P : platform) (C : Key.config) (t : Z)
    (k : option string) (c : option coords) (g : Key.globals) :
  let old := Key.last_pressed_key g in
  let new := Key.debounced P C g t k in
  let r := Key.state_machine P C t k c g in
  led_of (events_of r) = (if key_neq new old then [truthy new] else []) /\
  reports_of (events_of r) = [] /\
  Key.last_center_coords (vars_of r) = Key.last_center_coords g /\
  Key.last_print_time (vars_of r) = Key.last_print_time g.
Proof.
  cbv zeta.
  unfold Key.state_machine, Key.debounced, events_of, vars_of.
  run_monad.
  destruct (Key.last_pressed_key g) as [o|], k as [k|].
  all: all_cases.
  all: try (repeat split; (reflexivity || discriminate)).
  all: key_facts.
  all: match goal with
       | H : ?x = false, H' : context [?x] |- _ => rewrite H in H'; discriminate H'
       end.
Qed.

Lemma piano_state_machine_side (P : platform) (k : option string) (g : Piano.globals) :
  let r := Piano.state_machine P k g in
  led_of (events_of r) =
    (if key_neq k (Piano.last_pressed_key g) then [truthy k] else []).
Proof.
  cbv zeta. unfold Piano.state_machine, events_of. run_monad.
  destruct g as [[o|]], k as [k|].
  all: all_cases.
  all: try reflexivity.
Qed.

Lemma periodic_report_side (P : platform) (C : Key.config) (t : Z) (g : Key.globals) :
  let r := Key.periodic_report P C t g in
  led_of (events_of r) = [] /\
  reports_of (events_of r) =
    (if ticks_diff P t (Key.last_print_time g) >=? Key.print_interval C
     then [Key.last_center_coords g] else []) /\
  Key.last_center_coords (vars_of r) = Key.last_center_coords g.
Proof.
  cbv zeta. unfold Key.periodic_report, events_of, vars_of. run_monad.
  all_cases; repeat split; cbn; congruence.
Qed.

(** The side effects of one iteration of key.py. *)
Lemma key_frame_side (P : platform) (C : Key.config) (f : frame) (g : Key.globals) :
  let r := Key.loop_body P C f g in
  let old := Key.last_pressed_key g in
  let new := Key.debounced P C g (ticks_ms f)
               (fst (Key.detect (Key.zones C) (blobs f))) in
  let due := ticks_diff P (ticks_ms f) (Key.last_print_time g)
             >=? Key.print_interval C in
  led_of (events_of r) = (if key_neq new old then [truthy new] else []) /\
  reports_of (events_of r) =
    (if completed r && due then [Key.last_center_coords (vars_of r)] else []) /\
  Key.last_print_time (vars_of r) =
    (if completed r && due then ticks_ms f else Key.last_print_time g).
Proof.
  cbv zeta. unfold Key.loop_body.
  destruct (Key.detect (Key.zones C) (blobs f)) as [k c]. cbn [fst].
  rewrite ?seq_events, ?seq_vars, ?seq_completed, ?seq_events, ?seq_vars.
  rewrite update_center_run.
  change (completed (Normal tt, ?x, ?w)) with true.
  change (vars_of (Normal tt, ?x, ?w)) with x.
  change (events_of (Normal tt, ?x, ?w)) with w.
  cbn [andb app].
  set (g1 := Key.set_last_center_coords _ g).
  destruct (key_state_machine_side P C (ticks_ms f) k c g1) as (Sl & Sr & Sc & Sp).
  destruct (key_state_machine_run P C (ticks_ms f) k c g1) as (_ & _ & Sv).
  change (Key.last_pressed_key g1) with (Key.last_pressed_key g) in *.
  change (Key.debounced P C g1 (ticks_ms f) k)
    with (Key.debounced P C g (ticks_ms f) k) in *.
  change (Key.last_print_time g1) with (Key.last_print_time g) in *.
  set (r1 := Key.state_machine P C (ticks_ms f) k c g1) in *.
  destruct (periodic_report_side P C (ticks_ms f) (vars_of r1)) as (Pl & Pr & Pc).
  destruct (periodic_report_run P C (ticks_ms f) (vars_of r1)) as (Pd & _ & Pv).
  rewrite !led_of_app, !reports_of_app, Sl, Sr.
  destruct (completed r1); cbn [andb app].
  - rewrite Sp in Pr, Pv. rewrite Pl, Pr, Pd, Pv, app_nil_r. cbn [andb].
    destruct (ticks_diff P (ticks_ms f) (Key.last_print_time g)
              >=? Key.print_interval C);
      repeat split; cbn; try reflexivity; exact Sp.
  - rewrite app_nil_r. repeat split; try reflexivity. exact Sp.
Qed.

Lemma led_after_app (init : bool) (w1 w2 : list event) :
  led_after init (w1 ++ w2) = led_after (led_after init w1) w2.
Proof. unfold led_after. now rewrite led_of_app, fold_left_app. Qed.

(** The blue LED follows the key variable. In a frame of either script the LED
    is switched exactly when the (gated) candidate differs from the held key,
    to on for a key and to off for none, and this before the writes, so also in
    a frame that a write ends by raising. Along a run that ends normally, an
    LED that showed the key state at the start shows it at the end. *)
Theorem led_follows_key (P : platform) :
  (forall C f g,
     let new := Key.debounced P C g (ticks_ms f)
                  (fst (Key.detect (Key.zones C) (blobs f))) in
     led_of (events_of (Key.loop_body P C f g)) =
       if key_neq new (Key.last_pressed_key g) then [truthy new] else []) /\
  (forall table f g,
     let new := Piano.detect table (blobs f) in
     led_of (events_of (Piano.loop_body P table f g)) =
       if key_neq new (Piano.last_pressed_key g) then [truthy new] else []) /\
  (forall C fs g,
     completed (Key.run P C fs g) = true ->
     led_after (truthy (Key.last_pressed_key g)) (events_of (Key.run P C fs g))
       = truthy (Key.last_pressed_key (vars_of (Key.run P C fs g)))) /\
  (forall table fs g,
     completed (Piano.run P table fs g) = true ->
     led_after (truthy (Piano.last_pressed_key g)) (events_of (Piano.run P table fs g))
       = truthy (Piano.last_pressed_key (vars_of (Piano.run P table fs g)))).
Proof.
  split; [|split; [|split]].
  - intros C f g. apply key_frame_side.
  - intros table f g. apply piano_state_machine_side.
  - intros C fs. unfold Key.run.
    induction fs as [|f rest IH]; intros g Hc; [reflexivity|].
    cbn [iterate] in *. rewrite seq_completed in Hc.
    apply andb_true_iff in Hc as [Hf Hrest].
    rewrite seq_events, seq_vars, Hf, led_after_app.
    destruct (key_frame_summary P C f g) as (_ & _ & Hk & _).
    destruct (key_frame_side P C f g) as (Hl & _).
    rewrite Hf in Hk. rewrite <- (IH _ Hrest). f_equal.
    unfold led_after. rewrite Hl, Hk.
    destruct (key_neq _ _) eqn:Hn; [reflexivity|].
    apply key_neq_false in Hn. now rewrite Hn.
  - intros table fs. unfold Piano.run.
    induction fs as [|f rest IH]; intros g Hc; [reflexivity|].
    cbn [iterate] in *. rewrite seq_completed in Hc.
    apply andb_true_iff in Hc as [Hf Hrest].
    rewrite seq_events, seq_vars, Hf, led_after_app.
    destruct (piano_frame_summary P table f g) as (_ & _ & Hk).
    pose proof (piano_state_machine_side P (Piano.detect table (blobs f)) g) as Hl.
    rewrite Hf in Hk. rewrite <- (IH _ Hrest). f_equal.
    unfold led_after. unfold Piano.loop_body in *. cbv zeta in Hl. rewrite Hl, Hk.
    destruct (key_neq _ _) eqn:Hn; [reflexivity|].
    apply key_neq_false in Hn. now rewrite Hn.
Qed.

Lemma led_follows_key_witness :
  led_after false
    (events_of (Key.run ideal_board Key.source_config
                  [one_blob 180 160 2500; no_blob 2800; one_blob 150 150 3100]
                  Key.initial)) = true.
Proof.
  refine (proj1 (proj2 (proj2 (led_follows_key ideal_board))) Key.source_config
            [one_blob 180 160 2500; no_blob 2800; one_blob 150 150 3100]
            Key.initial _).
  reflexivity.
Defined.

(** The two-second report of key.py. In a frame that ends normally the timer
    prints exactly when [COORD_PRINT_INTERVAL] has passed since it last
    printed, whatever the key state; it prints the center as the same frame
    has just updated it, and restarts from the frame's time. A frame that a
    UART write ends by raising prints no report and leaves the timer as it
    was. The timer never writes to the UART. *)
Theorem timer_report_rule (P : platform) (C : Key.config) (f : frame) (g : Key.globals) :
  let r := Key.loop_body P C f g in
  let due := ticks_diff P (ticks_ms f) (Key.last_print_time g)
             >=? Key.print_interval C in
  reports_of (events_of r) =
    (if completed r && due then [Key.last_center_coords (vars_of r)] else []) /\
  Key.last_print_time (vars_of r) =
    (if completed r && due then ticks_ms f else Key.last_print_time g) /\
  (forall t g0, uart_of (events_of (Key.periodic_report P C t g0)) = [] /\
                completed (Key.periodic_report P C t g0) = true).
Proof.
  cbv zeta. destruct (key_frame_side P C f g) as (_ & Hr & Hp).
  split; [exact Hr|]. split; [exact Hp|].
  intros t g0. destruct (periodic_report_run P C t g0) as (Hc & Hu & _). auto.
Qed.

Lemma spaced_from_earlier (d lo lo' : Z) (ts : list Z) :
  lo <= lo' -> spaced d lo' ts -> spaced d lo ts.
Proof. destruct ts as [|t ts]; cbn; [tauto|]. intros Hl [Ht Hs]. split; [lia|exact Hs]. Qed.

(** On a board whose [ticks_diff] is the plain difference, two reports of the
    timer of key.py are never less than [COORD_PRINT_INTERVAL] apart, and the
    first comes no sooner than that after the last one before the run. *)
Theorem reports_are_spaced (P : platform) (C : Key.config) (fs : list frame) :
  (forall a b, ticks_diff P a b = a - b) ->
  forall g,
    spaced (Key.print_interval C) (Key.last_print_time g) (report_times P C fs g).
Proof.
  intros Hd. induction fs as [|f rest IH]; intros g; [exact I|].
  cbn [report_times].
  destruct (key_frame_side P C f g) as (_ & Hr & Hp).
  rewrite Hr. destruct (completed (Key.loop_body P C f g)); cbn [andb].
  - pose proof (IH (vars_of (Key.loop_body P C f g))) as Hrest.
    destruct (_ >=? _) eqn:E; cbn [andb] in Hp; rewrite Hp in Hrest.
    + cbn [app spaced]. split; [|exact Hrest].
      apply Z.geb_le in E. rewrite Hd in E. lia.
    + exact Hrest.
  - exact I.
Qed.

Lemma reports_are_spaced_witness :
  spaced 2000 0
    (report_times ideal_board Key.source_config
       [no_blob 1000; no_blob 2000; no_blob 3000; no_blob 4100] Key.initial).
Proof.
  refine (reports_are_spaced ideal_board Key.source_config
            [no_blob 1000; no_blob 2000; no_blob 3000; no_blob 4100] _ Key.initial).
  reflexivity.
Defined.

(** ** Presses in time *)

Lemma transmit_press (P : platform) (old new : option string) :
  existsb is_press (snd (transmit P old new)) = true ->
  fst (transmit P old new) = true /\ key_neq new old = true /\ held new <> None.
Proof.
  unfold transmit.
  destruct (key_neq new old), (held old) as [k|], (held new) as [k'|];
    repeat match goal with
           | |- context [if uart_accepts P ?x then _ else _] =>
               destruct (uart_accepts P x)
           end;
    cbn [fst snd existsb];
    rewrite ?is_press_press, ?is_press_release; cbn [orb];
    intros H; try discriminate H; repeat split; discriminate.
Qed.

(** On a board whose [ticks_diff] is the plain difference and whose clock does
    not run backwards, key.py never writes two presses less than
    [DEBOUNCE_TIME] apart, and writes the first no sooner than that after the
    last transition before the run. *)
Theorem presses_are_spaced (P : platform) (C : Key.config) (fs : list frame) :
  (forall a b, ticks_diff P a b = a - b) ->
  forall g t0,
    Key.last_key_time g <= t0 ->
    nondecreasing_from t0 fs ->
    spaced (Key.debounce_time C) (Key.last_key_time g) (press_times P C fs g).
Proof.
  intros Hd. induction fs as [|f rest IH]; intros g t0 Hg Hs; [exact I|].
  destruct Hs as [Hf Hrest]. cbn [press_times].
  destruct (key_frame_summary P C f g) as (Hc & Hu & _ & Ht & _).
  pose proof (IH (vars_of (Key.loop_body P C f g)) (ticks_ms f)) as Hnext.
  destruct (existsb is_press _) eqn:Hp.
  - rewrite Hu in Hp. apply transmit_press in Hp as (Hok & Hn & Hh).
    rewrite <- Hc in Hok. rewrite Hok, Hn in *. cbn [andb] in Ht.
    rewrite Ht in Hnext. cbn [app spaced]. split.
    + destruct (Z.le_gt_cases (Key.debounce_time C)
                  (ticks_diff P (ticks_ms f) (Key.last_key_time g))) as [Hle|Hlt].
      * rewrite Hd in Hle. lia.
      * exfalso. apply Hh. now apply debounced_inside_window.
    + apply Hnext; [lia|exact Hrest].
  - cbn [app]. destruct (completed (Key.loop_body P C f g)); [|exact I].
    apply (spaced_from_earlier _ _ (Key.last_key_time (vars_of (Key.loop_body P C f g)))).
    + rewrite Ht. destruct (_ && _); lia.
    + apply Hnext; [|exact Hrest]. rewrite Ht. destruct (_ && _); lia.
Qed.

Lemma presses_are_spaced_witness :
  spaced 200 0
    (press_times ideal_board Key.source_config
       [one_blob 180 160 2500; one_blob 180 160 2530; one_blob 180 160 2600;
        one_blob 180 160 2730] Key.initial).
Proof.
  refine (presses_are_spaced ideal_board Key.source_config
            [one_blob 180 160 2500; one_blob 180 160 2530; one_blob 180 160 2600;
             one_blob 180 160 2730] _ Key.initial 0 _ _).
  - reflexivity.
  - cbn. lia.
  - cbn. lia.
Defined.

(** ** The link and the key variable stay in step *)

Lemma transmit_leaves (P : platform) (old new : option string)
    (rest : list string) (h' : option string) :
  fst (transmit P old new) = true ->
  leaves_down (held new) rest h' ->
  leaves_down (held old) (snd (transmit P old new) ++ rest) h'.
Proof.
  unfold transmit.
  destruct (key_neq new old) eqn:Hn.
  - destruct (held old) as [k|], (held new) as [k'|];
      repeat match goal with
             | |- context [if uart_accepts P ?c then _ else _] =>
                 destruct (uart_accepts P c)
             end;
      cbn [fst snd app]; intros Hok H; try discriminate Hok;
      cbn [leaves_down]; eauto.
  - apply key_neq_false in Hn. subst. cbn [fst snd app]. tauto.
Qed.

(** Along a run of either script that ends normally, the commands written,
    read from a link on which the key held at the start is down, leave exactly
    the key held at the end down: the controller and the key variable never
    get out of step as long as no write raises. *)
Theorem link_and_key_in_step (P : platform) (fs : list frame) :
  (forall C g,
     completed (Key.run P C fs g) = true ->
     leaves_down (held (Key.last_pressed_key g))
       (uart_of (events_of (Key.run P C fs g)))
       (held (Key.last_pressed_key (vars_of (Key.run P C fs g))))) /\
  (forall table g,
     completed (Piano.run P table fs g) = true ->
     leaves_down (held (Piano.last_pressed_key g))
       (uart_of (events_of (Piano.run P table fs g)))
       (held (Piano.last_pressed_key (vars_of (Piano.run P table fs g))))).
Proof.
  split.
  - intros C. unfold Key.run.
    induction fs as [|f rest IH]; intros g Hc; [reflexivity|].
    cbn [iterate] in *. rewrite seq_completed in Hc.
    apply andb_true_iff in Hc as [Hf Hrest].
    rewrite seq_uart, seq_vars, Hf.
    destruct (key_frame_summary P C f g) as (Hc & Hu & Hk & _).
    rewrite Hf in Hk, Hc. rewrite Hu.
    apply transmit_leaves; [now symmetry|].
    rewrite <- Hk. now apply IH.
  - intros table. unfold Piano.run.
    induction fs as [|f rest IH]; intros g Hc; [reflexivity|].
    cbn [iterate] in *. rewrite seq_completed in Hc.
    apply andb_true_iff in Hc as [Hf Hrest].
    rewrite seq_uart, seq_vars, Hf.
    destruct (piano_frame_summary P table f g) as (Hc & Hu & Hk).
    rewrite Hf in Hk, Hc. rewrite Hu.
    apply transmit_leaves; [now symmetry|].
    rewrite <- Hk. now apply IH.
Qed.

Lemma link_and_key_in_step_witness :
  leaves_down None
    (uart_of (events_of (Piano.run ideal_board Piano.pianokey_map_data
                           [one_blob 50 190 0; one_blob 70 190 30] Piano.initial)))
    (Some "D4"%string).
Proof.
  refine (proj2 (link_and_key_in_step ideal_board [one_blob 50 190 0; one_blob 70 190 30])
            Piano.pianokey_map_data Piano.initial _).
  reflexivity.
Defined.

(** ** Holding a key, run by run *)

(** While every frame resolves to the key that piano.py holds, the script does
    nothing at all: no command, no LED change, no output, the same state. *)
Theorem piano_hold_is_silent (P : platform) (table : list key_info)
    (fs : list frame) (g : Piano.globals) :
  Forall (fun f => Piano.detect table (blobs f) = Piano.last_pressed_key g) fs ->
  Piano.run P table fs g = (Normal tt, g, []).
Proof.
  unfold Piano.run. induction 1 as [|f rest Hf _ IH]; [reflexivity|].
  cbn [iterate]. rewrite seq_run, (piano_steady_hold P table f g Hf).
  cbn. rewrite IH. reflexivity.
Qed.

Lemma piano_hold_is_silent_witness :
  Piano.run ideal_board Piano.pianokey_map_data
    [one_blob 50 190 30; one_blob 51 191 60; one_blob 52 189 90]
    (Piano.Globals (Some "C4"%string))
  = (Normal tt, Piano.Globals (Some "C4"%string), []).
Proof.
  refine (piano_hold_is_silent ideal_board Piano.pianokey_map_data
            [one_blob 50 190 30; one_blob 51 191 60; one_blob 52 189 90]
            (Piano.Globals (Some "C4"%string)) _).
  repeat constructor.
Defined.

(** While every frame resolves to the key that key.py holds and comes at least
    [DEBOUNCE_TIME] after the last transition, key.py writes nothing and keeps
    the key and the transition time. *)
Theorem key_hold_is_silent (P : platform) (C : Key.config) (fs : list frame) :
  forall g,
    Forall (fun f =>
              fst (Key.detect (Key.zones C) (blobs f)) = Key.last_pressed_key g /\
              Key.debounce_time C <= ticks_diff P (ticks_ms f) (Key.last_key_time g))
           fs ->
    let r := Key.run P C fs g in
    completed r = true /\ uart_of (events_of r) = [] /\
    Key.last_pressed_key (vars_of r) = Key.last_pressed_key g /\
    Key.last_key_time (vars_of r) = Key.last_key_time g.
Proof.
  unfold Key.run. induction fs as [|f rest IH]; intros g Hfs; [now repeat split|].
  inversion Hfs as [|? ? [Hk Hw] Hrest]; subst. cbv zeta. cbn [iterate].
  destruct (key_steady_hold_outside_window P C f g Hk Hw) as (Hc & Hu & Hl & Ht).
  rewrite seq_completed, seq_uart, seq_vars, Hc, Hu. cbn [andb app].
  destruct (IH (vars_of (Key.loop_body P C f g))) as (Hc' & Hu' & Hl' & Ht').
  { rewrite Hl, Ht. exact Hrest. }
  rewrite Hc', Hu', Hl', Ht', Hl, Ht. now repeat split.
Qed.

Lemma key_hold_is_silent_witness :
  uart_of (events_of (Key.run ideal_board Key.source_config
                        [one_blob 180 160 2800; one_blob 181 161 3100]
                        (Key.Globals (Some "J"%string) 2500 (Some (179, 161)) 2000)))
  = [].
Proof.
  refine (proj1 (proj2 (key_hold_is_silent ideal_board Key.source_config
            [one_blob 180 160 2800; one_blob 181 161 3100]
            (Key.Globals (Some "J"%string) 2500 (Some (179, 161)) 2000) _))).
  repeat constructor; apply Z.leb_le; reflexivity.
Defined.

Lemma key_steady_hold_inside_window_witness :
  uart_of (events_of (Key.loop_body ideal_board Key.source_config (one_blob 180 160 2530)
                        (Key.Globals (Some "J"%string) 2500 (Some (179, 161)) 2000)))
    = [release_cmd "J"].
Proof.
  refine (proj1 (key_steady_hold_inside_window ideal_board Key.source_config
            (one_blob 180 160 2530)
            (Key.Globals (Some "J"%string) 2500 (Some (179, 161)) 2000)
            "J" _ _ _ _ _)).
  - reflexivity.
  - reflexivity.
  - discriminate.
  - reflexivity.
  - reflexivity.
Defined.

(** ** Pressing from idle *)

Lemma transmit_press_only (P : platform) (k : string) :
  k <> EmptyString -> uart_accepts P (press_cmd k) = true ->
  transmit P None (Some k) = (true, [press_cmd k]).
Proof.
  intros Hk Ha. unfold transmit. rewrite (held_some k Hk), Ha. reflexivity.
Qed.

(** With no key held, a blob on the key [k] makes piano.py write the press of
    [k] at once. key.py writes it when [DEBOUNCE_TIME] has passed since the
    last transition and records the frame's time; before that it writes
    nothing, stays idle and leaves the transition time alone, so that a
    suppressed press does not push the next one further away. *)
Theorem press_from_idle (P : platform) (k : string) (f : frame) :
  k <> EmptyString ->
  uart_accepts P (press_cmd k) = true ->
  (forall table g,
     Piano.last_pressed_key g = None ->
     Piano.detect table (blobs f) = Some k ->
     let r := Piano.loop_body P table f g in
     uart_of (events_of r) = [press_cmd k] /\
     Piano.last_pressed_key (vars_of r) = Some k) /\
  (forall C g,
     Key.last_pressed_key g = None ->
     fst (Key.detect (Key.zones C) (blobs f)) = Some k ->
     let r := Key.loop_body P C f g in
     (Key.debounce_time C <= ticks_diff P (ticks_ms f) (Key.last_key_time g) ->
      uart_of (events_of r) = [press_cmd k] /\
      Key.last_pressed_key (vars_of r) = Some k /\
      Key.last_key_time (vars_of r) = ticks_ms f) /\
     (ticks_diff P (ticks_ms f) (Key.last_key_time g) < Key.debounce_time C ->
      uart_of (events_of r) = [] /\
      Key.last_pressed_key (vars_of r) = None /\
      Key.last_key_time (vars_of r) = Key.last_key_time g)).
Proof.
  intros Hk Ha. split.
  - intros table g Hg Hd r. subst r.
    destruct (piano_frame_summary P table f g) as (Hc & Hu & Hl).
    rewrite Hg, Hd, (transmit_press_only P k Hk Ha) in *.
    cbn [fst snd] in *. rewrite Hc in Hl. auto.
  - intros C g Hg Hd r. subst r.
    destruct (key_frame_summary P C f g) as (Hc & Hu & Hl & Ht & _).
    rewrite Hg, Hd in *. split; intros Hw.
    + rewrite (debounced_outside_window P C g _ _ Hw) in *.
      rewrite (transmit_press_only P k Hk Ha) in *.
      cbn [fst snd] in *. rewrite Hc in *. auto.
    + destruct (debounced_inside_window P C g (ticks_ms f) (Some k) Hw) as [_ Hn].
      rewrite Hn in * by (now apply truthy_some).
      unfold transmit in *. cbn [key_neq fst snd] in *.
      rewrite Hc in *. auto.
Qed.

Lemma press_from_idle_witness :
  uart_of (events_of (Key.loop_body ideal_board Key.source_config (one_blob 180 160 2500)
                        Key.initial)) = [press_cmd "J"] /\
  uart_of (events_of (Key.loop_body ideal_board Key.source_config (one_blob 180 160 2850)
                        (Key.Globals None 2800 None 2000))) = [].
Proof.
  split.
  - refine (proj1 (proj1 (proj2 (press_from_idle ideal_board "J" (one_blob 180 160 2500)
              _ eq_refl) Key.source_config Key.initial eq_refl eq_refl) _)).
    + discriminate.
    + apply Z.leb_le. reflexivity.
  - refine (proj1 (proj2 (proj2 (press_from_idle ideal_board "J" (one_blob 180 160 2850)
              _ eq_refl) Key.source_config (Key.Globals None 2800 None 2000)
              eq_refl eq_refl) _)).
    + discriminate.
    + reflexivity.
Defined.

(** ** From one key to another *)

Lemma transmit_switch (P : platform) (k1 k2 : string) :
  k1 <> k2 -> k1 <> EmptyString -> k2 <> EmptyString ->
  uart_accepts P (release_cmd k1) = true ->
  uart_accepts P (press_cmd k2) = true ->
  transmit P (Some k1) (Some k2) = (true, [release_cmd k1; press_cmd k2]).
Proof.
  intros Hne H1 H2 Ha1 Ha2. unfold transmit.
  assert (E : key_neq (Some k2) (Some k1) = true).
  { unfold key_neq. apply negb_true_iff, String.eqb_neq. congruence. }
  rewrite E, (held_some k1 H1), (held_some k2 H2), Ha1, Ha2. reflexivity.
Qed.

(** When the blob goes from the held key [k1] straight to another key [k2],
    piano.py writes the release of [k1] and then the press of [k2] in that
    frame. key.py does the same once [DEBOUNCE_TIME] has passed since the last
    transition; inside that time it only releases [k1], holds no key, and
    restarts the debounce time from this frame. *)
Theorem key_to_key (P : platform) (k1 k2 : string) (f : frame) :
  k1 <> k2 -> k1 <> EmptyString -> k2 <> EmptyString ->
  uart_accepts P (release_cmd k1) = true ->
  uart_accepts P (press_cmd k2) = true ->
  (forall table g,
     Piano.last_pressed_key g = Some k1 ->
     Piano.detect table (blobs f) = Some k2 ->
     let r := Piano.loop_body P table f g in
     uart_of (events_of r) = [release_cmd k1; press_cmd k2] /\
     Piano.last_pressed_key (vars_of r) = Some k2) /\
  (forall C g,
     Key.last_pressed_key g = Some k1 ->
     fst (Key.detect (Key.zones C) (blobs f)) = Some k2 ->
     let r := Key.loop_body P C f g in
     (Key.debounce_time C <= ticks_diff P (ticks_ms f) (Key.last_key_time g) ->
      uart_of (events_of r) = [release_cmd k1; press_cmd k2] /\
      Key.last_pressed_key (vars_of r) = Some k2 /\
      Key.last_key_time (vars_of r) = ticks_ms f) /\
     (ticks_diff P (ticks_ms f) (Key.last_key_time g) < Key.debounce_time C ->
      uart_of (events_of r) = [release_cmd k1] /\
      Key.last_pressed_key (vars_of r) = None /\
      Key.last_key_time (vars_of r) = ticks_ms f)).
Proof.
  intros Hne H1 H2 Ha1 Ha2. split.
  - intros table g Hg Hd r. subst r.
    destruct (piano_frame_summary P table f g) as (Hc & Hu & Hk).
    rewrite Hg, Hd, (transmit_switch P k1 k2) in * by assumption.
    cbn [fst snd] in *. rewrite Hc in Hk. auto.
  - intros C g Hg Hd r. subst r.
    destruct (key_frame_summary P C f g) as (Hc & Hu & Hk & Ht & _).
    rewrite Hg, Hd in *. split; intros Hw.
    + rewrite (debounced_outside_window P C g _ _ Hw) in *.
      rewrite (transmit_switch P k1 k2) in * by assumption.
      cbn [fst snd] in *. rewrite Hc in *.
      assert (E : key_neq (Some k2) (Some k1) = true).
      { unfold key_neq. apply negb_true_iff, String.eqb_neq. congruence. }
      rewrite E in Ht. auto.
    + destruct (debounced_inside_window P C g (ticks_ms f) (Some k2) Hw) as [_ Hn].
      rewrite Hn in * by (now apply truthy_some).
      rewrite (transmit_release P k1 H1 Ha1) in *.
      cbn [fst snd] in *. rewrite Hc in *. auto.
Qed.

Lemma key_to_key_witness :
  uart_of (events_of (Piano.loop_body ideal_board Piano.pianokey_map_data
                        (one_blob 70 190 30) (Piano.Globals (Some "C4"%string))))
    = [release_cmd "C4"; press_cmd "D4"] /\
  uart_of (events_of (Key.loop_body ideal_board Key.source_config (one_blob 150 150 2530)
                        (Key.Globals (Some "J"%string) 2500 (Some (179, 161)) 2000)))
    = [release_cmd "J"].
Proof.
  split.
  - refine (proj1 (proj1 (key_to_key ideal_board "C4" "D4" (one_blob 70 190 30)
              _ _ _ eq_refl eq_refl)
              Piano.pianokey_map_data (Piano.Globals (Some "C4"%string))
              eq_refl eq_refl)); discriminate.
  - refine (proj1 (proj2 (proj2 (key_to_key ideal_board "J" "H" (one_blob 150 150 2530)
              _ _ _ eq_refl eq_refl)
              Key.source_config
              (Key.Globals (Some "J"%string) 2500 (Some (179, 161)) 2000)
              eq_refl eq_refl) _)); try discriminate.
    reflexivity.
Defined.

(** ** A blob off every zone *)

(** A blob that resolves to no key has the effect of no blob at all on the
    commands and the key state of either script; only [last_center_coords]
    of key.py tells the two frames apart. *)
Theorem off_zone_blob_is_no_blob (P : platform) (bs : list blob) (t : Z) :
  (forall C g,
     fst (Key.detect (Key.zones C) bs) = None ->
     let r := Key.loop_body P C (Frame bs t) g in
     let r0 := Key.loop_body P C (Frame [] t) g in
     completed r = completed r0 /\
     uart_of (events_of r) = uart_of (events_of r0) /\
     Key.last_pressed_key (vars_of r) = Key.last_pressed_key (vars_of r0) /\
     Key.last_key_time (vars_of r) = Key.last_key_time (vars_of r0) /\
     Key.last_print_time (vars_of r) = Key.last_print_time (vars_of r0)) /\
  (forall table g,
     Piano.detect table bs = None ->
     Piano.loop_body P table (Frame bs t) g = Piano.loop_body P table (Frame [] t) g).
Proof.
  split.
  - intros C g Hd r r0. subst r r0.
    destruct (key_frame_summary P C (Frame bs t) g) as (Hc & Hu & Hk & Ht & _).
    destruct (key_frame_summary P C (Frame [] t) g) as (Hc0 & Hu0 & Hk0 & Ht0 & _).
    destruct (key_frame_side P C (Frame bs t) g) as (_ & _ & Hp).
    destruct (key_frame_side P C (Frame [] t) g) as (_ & _ & Hp0).
    cbn [blobs ticks_ms] in *. rewrite Hd in *.
    rewrite key_detect_no_blob in *. cbn [fst] in *.
    rewrite Hc, Hc0, Hu, Hu0, Hk, Hk0, Ht, Ht0, Hp, Hp0, Hc, Hc0. auto.
  - intros table g Hd. unfold Piano.loop_body. cbn [blobs]. now rewrite Hd.
Qed.

Lemma off_zone_blob_is_no_blob_witness :
  uart_of (events_of (Key.loop_body ideal_board Key.source_config (one_blob 5 5 2800)
                        (Key.Globals (Some "J"%string) 2500 (Some (179, 161)) 2000)))
  = uart_of (events_of (Key.loop_body ideal_board Key.source_config (no_blob 2800)
                          (Key.Globals (Some "J"%string) 2500 (Some (179, 161)) 2000))).
Proof.
  refine (proj1 (proj2 (proj1 (off_zone_blob_is_no_blob ideal_board [Blob 5 5 100] 2800)
            Key.source_config
            (Key.Globals (Some "J"%string) 2500 (Some (179, 161)) 2000) _))).
  reflexivity.
Defined.

(** ** Runs *)




(** ** The order of the piano table *)

Ltac compare_tables :=
  repeat (cbn [first_hit rect key center];
          match goal with
          | |- context [inside ?r ?x ?y] =>
              let E := fresh "E" in
              destruct (inside r x y) eqn:E;
              [ apply inside_iff in E; cbn in E; try (exfalso; lia) | ]
          end);
  try reflexivity.

(** No black key of piano.py overlaps a white key (nor any key another), so
    that listing the black keys first, as [pianokey_map_data] does, changes
    nothing: with the white keys first every frame resolves to the same key. *)
Theorem piano_order_is_immaterial (bs : list blob) :
  Piano.detect (Piano.white_keys ++ Piano.black_keys) bs
  = Piano.detect Piano.pianokey_map_data bs.
Proof.
  unfold Piano.detect. destruct (main_blob bs) as [b|]; [|reflexivity].
  generalize (cx b) (cy b). intros px py.
  unfold Piano.pianokey_map_data, Piano.black_keys, Piano.white_keys. cbn [app].
  compare_tables.
Qed.
